(** * PR0: translation fallback chain, client hook, auto-retranslation
      controller and crisis-alert poller

    A shallow embedding of the TypeScript sources

    - the Google-based translate route ([translateWithGoogleAPI],
      [translateWithMyMemory], [POST]),
    - the [useTranslation] hook ([translate]),
    - the auto-translate effect of [RegionalNarrative] ([handleTranslate] and
      the [useEffect] that watches the selected language),
    - the alerts proxy route ([GET]) and the [fetchAlerts] poller of
      [CrisisPredictor],

    followed by the properties of the specification that concern them.

    Modelling conventions.
    - A JavaScript string is the list of its UTF-16 code units: [len] is
      [.length] and [slice0 n] is [.slice(0, n)].
    - [async] functions are split at their [await] on the network: the part
      before the await decides whether a request is issued, the part after
      it is a function of the outcome of that request.  Exceptions are
      explicit ([Throw]), so that "does not throw" is a statement about the
      result and not an artefact of the encoding.
    - The effect of [RegionalNarrative] runs after every render, because one
      of its dependencies ([handleTranslate], which depends on the array
      [supportedLanguages] built in the component body) is new at every
      render; [handleGenerate] is not part of the model.
    - The outside world (the providers, the clock, the environment variable)
      is a record of oracles; every request that is sent is recorded in a
      trace.
    - Language codes are the strings a client sends, whatever they are.  The
      tables of the routes are object literals: [table[k]] and [k in table]
      also find the names that an object inherits from [Object.prototype]
      ([lookup_property], [has_property]).
    - The body of a response is [Unreadable] when reading it fails: then
      [text()] and [json()] both reject. *)

From Stdlib Require Import ZArith NArith Bool Ascii Lia.
From stdpp Require Import base option list strings gmap.

Open Scope nat_scope.

(* ===================================================================== *)
(** * Part I: the program *)
(* ===================================================================== *)

(** ** JavaScript strings *)

Module JS.

(** A string is its sequence of UTF-16 code units. *)
Abbreviation jsstring := (list N).

(** The code units of an ASCII literal of the source. *)
Definition lit (s : string) : jsstring :=
  (fun a => N_of_ascii a) <$> String.list_ascii_of_string s.

Definition eqb (a b : jsstring) : bool := bool_decide (a = b).

(** [!s] for a string: only the empty string is falsy. *)
Definition falsy (s : jsstring) : bool :=
  match s with [] => true | _ => false end.

Definition truthy (s : jsstring) : bool := negb (falsy s).

(** [!v] for a value that may be [undefined] / [null]. *)
Definition falsy_opt (v : option jsstring) : bool :=
  match v with None => true | Some s => falsy s end.

Definition truthy_opt (v : option jsstring) : bool := negb (falsy_opt v).

(** [v || d] *)
Definition or_else (v : option jsstring) (d : jsstring) : jsstring :=
  match v with
  | Some s => if falsy s then d else s
  | None => d
  end.

(** [s.length] *)
Definition len (s : jsstring) : Z := Z.of_nat (length s).

(** [s.slice(0, n)], for a limit [n] that is not negative. *)
Definition slice0 (n : Z) (s : jsstring) : jsstring := take (Z.to_nat n) s.

Fixpoint starts_with (needle hay : jsstring) : bool :=
  match needle, hay with
  | [], _ => true
  | _ :: _, [] => false
  | a :: needle', b :: hay' => N.eqb a b && starts_with needle' hay'
  end.

(** [hay.includes(needle)] *)
Fixpoint includes (needle hay : jsstring) : bool :=
  starts_with needle hay ||
  match hay with
  | [] => false
  | _ :: hay' => includes needle hay'
  end.

(** White space and line terminators, as [String.prototype.trim] sees
    them. *)
Definition is_white_space (c : N) : bool :=
  ((9 <=? c) && (c <=? 13) || (c =? 32) || (c =? 160) || (c =? 5760)
   || (8192 <=? c) && (c <=? 8202) || (c =? 8232) || (c =? 8233)
   || (c =? 8239) || (c =? 8287) || (c =? 12288) || (c =? 65279))%N.

Fixpoint trimStart (s : jsstring) : jsstring :=
  match s with
  | [] => []
  | c :: s' => if is_white_space c then trimStart s' else s
  end.

Definition trimEnd (s : jsstring) : jsstring :=
  reverse (trimStart (reverse s)).

Definition trim (s : jsstring) : jsstring := trimEnd (trimStart s).

(** [parts.join(sep)] *)
Fixpoint join (sep : jsstring) (parts : list jsstring) : jsstring :=
  match parts with
  | [] => []
  | [p] => p
  | p :: rest => p ++ sep ++ join sep rest
  end.

(** [encodeURIComponent] throws a [URIError] on a lone surrogate; this is
    the test it performs. *)
Definition is_high_surrogate (c : N) : bool := ((55296 <=? c) && (c <=? 56319))%N.
Definition is_low_surrogate (c : N) : bool := ((56320 <=? c) && (c <=? 57343))%N.

Fixpoint well_formed (s : jsstring) : bool :=
  match s with
  | [] => true
  | c :: s' =>
      if is_high_surrogate c then
        match s' with
        | d :: s'' => is_low_surrogate d && well_formed s''
        | [] => false
        end
      else if is_low_surrogate c then false
      else well_formed s'
  end.

(** The body of a request or of a response, by what reading it yields. *)
Inductive parsed (B : Type) : Type :=
| NotJson                (* the body is not JSON: [json()] rejects *)
| JsonNull               (* the body is the JSON value [null] *)
| JsonObject (b : B)
| Unreadable.            (* the body cannot be read: [text()] and [json()]
                            reject *)
Arguments NotJson {B}.
Arguments JsonNull {B}.
Arguments JsonObject {B} b.
Arguments Unreadable {B}.

(** What [await fetch(...)] yields. *)
Inductive fetched (B : Type) : Type :=
| Rejects                              (* network failure, timeout *)
| Responds (status : Z) (body : parsed B).
Arguments Rejects {B}.
Arguments Responds {B} status body.

(** [response.ok] *)
Definition ok (status : Z) : bool := ((200 <=? status) && (status <=? 299))%Z.

(** *** Tables written as object literals *)

(** The property names that every object literal inherits from
    [Object.prototype]. *)
Definition Object_prototype : list jsstring :=
  [ lit "constructor"; lit "__defineGetter__"; lit "__defineSetter__";
    lit "hasOwnProperty"; lit "__lookupGetter__"; lit "__lookupSetter__";
    lit "isPrototypeOf"; lit "propertyIsEnumerable"; lit "toString";
    lit "valueOf"; lit "__proto__"; lit "toLocaleString" ].

Definition inherited (k : jsstring) : bool := bool_decide (k ∈ Object_prototype).

(** The value of [table[k]], for a table whose own properties are strings. *)
Inductive property : Type :=
| Own (value : jsstring)       (* a property that the literal lists *)
| Builtin (name : jsstring)    (* an inherited one: a function of
                                  [Object.prototype], or for [__proto__] the
                                  prototype itself *)
| Undefined.

(** [table[k]] *)
Definition lookup_property (table : gmap jsstring jsstring) (k : jsstring)
  : property :=
  match table !! k with
  | Some value => Own value
  | None => if inherited k then Builtin k else Undefined
  end.

(** [k in table] *)
Definition has_property (table : gmap jsstring jsstring) (k : jsstring) : bool :=
  bool_decide (is_Some (table !! k)) || inherited k.

(** A function and an object are truthy. *)
Definition truthy_property (p : property) : bool :=
  match p with
  | Own value => truthy value
  | Builtin _ => true
  | Undefined => false
  end.

Definition falsy_property (p : property) : bool := negb (truthy_property p).

(** The string that a template literal makes of an inherited value: the
    source text of a native function (as Node prints it; the constructor
    is [Object]), and ["[object Object]"] for the prototype. *)
Definition builtin_text (name : jsstring) : jsstring :=
  if eqb name (lit "__proto__") then lit "[object Object]"
  else lit "function "
       ++ (if eqb name (lit "constructor") then lit "Object" else name)
       ++ lit "() { [native code] }".

(** [`${p || d}`] *)
Definition property_or (p : property) (d : jsstring) : jsstring :=
  match p with
  | Own value => if truthy value then value else d
  | Builtin name => builtin_text name
  | Undefined => d
  end.

End JS.

(** ** Control flow: state, exceptions, [try] / [catch] / [finally] *)

Module Eff.

Inductive exn : Type :=
| Error (message : string)       (* [throw new Error(message)] *)
| TypeError                      (* property access on [null] *)
| SyntaxError                    (* [json()] on a body that is not JSON *)
| URIError                       (* [encodeURIComponent] *)
| FetchError                     (* [fetch] rejected *)
| BodyError.                     (* the body cannot be read *)

Inductive completion (A : Type) : Type :=
| Return (a : A)
| Throw (e : exn).
Arguments Return {A} a.
Arguments Throw {A} e.

Definition M (S A : Type) : Type := S → completion A * S.

Definition ret {S A} (a : A) : M S A := λ s, (Return a, s).

Definition throw {S A} (e : exn) : M S A := λ s, (Throw e, s).

Definition bind {S A B} (m : M S A) (k : A → M S B) : M S B :=
  λ s, match m s with
       | (Return a, s') => k a s'
       | (Throw e, s') => (Throw e, s')
       end.

Definition modify {S} (f : S → S) : M S unit := λ s, (Return tt, f s).

Definition get {S} : M S S := λ s, (Return s, s).

(** [try { m } catch (e) { h e }] *)
Definition try_catch {S A} (m : M S A) (h : exn → M S A) : M S A :=
  λ s, match m s with
       | (Return a, s') => (Return a, s')
       | (Throw e, s') => h e s'
       end.

(** [try { m } finally { f }], for a [finally] block that does not itself
    return or throw: the completion of [m] is kept. *)
Definition try_finally {S A} (m : M S A) (f : S → S) : M S A :=
  λ s, match m s with
       | (c, s') => (c, f s')
       end.

(** [await] of what a network call yielded: a body that is not JSON, or
    that cannot be read, makes [json()] reject. *)
Definition json {S B} (body : JS.parsed B) : M S (option B) :=
  match body with
  | JS.NotJson => throw SyntaxError
  | JS.JsonNull => ret None
  | JS.JsonObject b => ret (Some b)
  | JS.Unreadable => throw BodyError
  end.

(** [await response.text()], for its effect only: it rejects when the
    body cannot be read. *)
Definition read_text {S B} (body : JS.parsed B) : M S unit :=
  match body with
  | JS.Unreadable => throw BodyError
  | _ => ret tt
  end.

(** Reading a property of the parsed body: [null.p] is a [TypeError]. *)
Definition of_object {S B} (data : option B) : M S B :=
  match data with
  | None => throw TypeError
  | Some b => ret b
  end.

Declare Scope eff_scope.
Delimit Scope eff_scope with eff.
Notation "'let*' x := m 'in' k" := (bind m (λ x, k))
  (at level 10, x name, m at level 100, k at level 200) : eff_scope.

End Eff.

(** ** The translate route (Google Cloud Translation, MyMemory fallback) *)

Module Route.
Import JS Eff.
Local Open Scope eff_scope.

Definition LANGUAGE_NAMES : gmap jsstring jsstring :=
  list_to_map
    [ (lit "en", lit "English"); (lit "hi", lit "Hindi");
      (lit "bn", lit "Bengali"); (lit "ta", lit "Tamil");
      (lit "te", lit "Telugu"); (lit "kn", lit "Kannada");
      (lit "ml", lit "Malayalam"); (lit "mr", lit "Marathi");
      (lit "gu", lit "Gujarati"); (lit "pa", lit "Punjabi");
      (lit "or", lit "Odia"); (lit "as", lit "Assamese");
      (lit "sa", lit "Sanskrit"); (lit "sd", lit "Sindhi");
      (lit "ur", lit "Urdu"); (lit "ne", lit "Nepali");
      (lit "bo", lit "Tibetan"); (lit "ks", lit "Kashmiri");
      (lit "mni", lit "Meitei (Manipuri)"); (lit "sat", lit "Santali");
      (lit "brx", lit "Bodo"); (lit "doi", lit "Dogri");
      (lit "kok", lit "Konkani"); (lit "mai", lit "Maithili");
      (lit "gom", lit "Konkani"); (lit "dcc", lit "Deccan") ].

Definition GOOGLE_LANGUAGE_CODES : gmap jsstring jsstring :=
  list_to_map
    [ (lit "en", lit "en"); (lit "hi", lit "hi"); (lit "bn", lit "bn");
      (lit "ta", lit "ta"); (lit "te", lit "te"); (lit "kn", lit "kn");
      (lit "ml", lit "ml"); (lit "mr", lit "mr"); (lit "gu", lit "gu");
      (lit "pa", lit "pa"); (lit "or", lit "or"); (lit "as", lit "as");
      (lit "sa", lit "sa"); (lit "sd", lit "sd"); (lit "ur", lit "ur");
      (lit "ne", lit "ne"); (lit "bo", lit "bo"); (lit "ks", lit "ks");
      (lit "mni", lit "mni-Mtei"); (lit "sat", lit "sat");
      (lit "brx", lit "brx"); (lit "doi", lit "doi"); (lit "kok", lit "gom");
      (lit "mai", lit "mai"); (lit "gom", lit "gom") ].

(** [k in LANGUAGE_NAMES] *)
Definition in_LANGUAGE_NAMES (k : jsstring) : bool :=
  has_property LANGUAGE_NAMES k.

(** The provider limits, in UTF-16 code units. *)
Definition GOOGLE_LIMIT : Z := 4500.
Definition MYMEMORY_LIMIT : Z := 500.

Definition GOOGLE_TRUNCATION_NOTE : jsstring :=
  [10; 10]%N ++
  lit "[Note: Translation truncated to 4,500 characters to meet Google API limits]".

Definition MYMEMORY_TRUNCATION_NOTE : jsstring :=
  [10; 10]%N ++
  lit "[Note: Translation truncated to 500 characters due to MyMemory free tier limits]".

(** *** The outside world *)

(** The object that is written as the JSON body of a request to Google
    ([format] and [model] are the constants ['text'] and ['nmt']).
    [JSON.stringify] writes an [Own] code as a string, leaves out a field
    whose value is a function, and writes [{}] for the prototype. *)
Record GoogleQuery := {
  q : jsstring;
  source : property;
  target : property;
}.

(** What the route reads of Google's answer: whether [data.error] is
    truthy, and [data?.data?.translations] when it is an array, each entry
    with its [translatedText] if any. *)
Record GoogleData := {
  error : bool;
  translations : option (list (option jsstring));
}.

(** The query string of a request to MyMemory, before URI encoding. *)
Record MyMemoryQuery := {
  mm_q : jsstring;
  langpair : jsstring * jsstring;
}.

(** What the route reads of MyMemory's answer: [data.responseStatus] and
    [data.responseData?.translatedText]. *)
Record MyMemoryData := {
  responseStatus : option Z;
  responseData_translatedText : option jsstring;
}.

Record Env := {
  GOOGLE_TRANSLATE_API_KEY : option jsstring;   (* process.env *)
  google : GoogleQuery → fetched GoogleData;
  mymemory : MyMemoryQuery → fetched MyMemoryData;
  clock : nat → Z;                (* the value of the n-th [Date.now()] *)
}.

Inductive Call : Type :=
| CallGoogle (query : GoogleQuery)
| CallMyMemory (query : MyMemoryQuery).

(** The state threaded through one request: the requests sent so far, in
    order, and how often the clock was read. *)
Record World := {
  calls : list Call;
  clock_reads : nat;
}.

Definition fresh : World := {| calls := []; clock_reads := 0 |}.

Definition send (c : Call) (w : World) : World :=
  {| calls := calls w ++ [c]; clock_reads := clock_reads w |}.

Definition Date_now (env : Env) : M World Z :=
  λ w, (Return (clock env (clock_reads w)),
        {| calls := calls w; clock_reads := S (clock_reads w) |}).

(** [await fetch(...)]: the request is sent; a rejection is an exception
    at the [await]. *)
Definition fetch {B} (c : Call) (outcome : fetched B) : M World (Z * parsed B) :=
  let* _ := modify (send c) in
  match outcome with
  | Rejects => throw FetchError
  | Responds status body => ret (status, body)
  end.

(** *** [translateWithGoogleAPI] *)

Definition translateWithGoogleAPI (env : Env)
    (text sourceLang targetLang : jsstring) : M World (option jsstring) :=
  if falsy_opt (GOOGLE_TRANSLATE_API_KEY env) then ret None
  else
    let googleSource := lookup_property GOOGLE_LANGUAGE_CODES sourceLang in
    let googleTarget := lookup_property GOOGLE_LANGUAGE_CODES targetLang in
    if falsy_property googleSource || falsy_property googleTarget then ret None
    else
      let textToTranslate :=
        if (len text >? 4500)%Z then slice0 4500 text else text in
      let query := {| q := textToTranslate;
                      source := googleSource;
                      target := googleTarget |} in
      let* response := fetch (CallGoogle query) (google env query) in
      if negb (ok response.1) then
        let* _ := read_text response.2 in      (* for the log *)
        ret None
      else
        let* parsed_body := json response.2 in
        let* data := of_object parsed_body in
        if error data then ret None
        else
          match translations data with
          | None | Some [] => ret None
          | Some entries =>
              let translated :=
                trim (join (lit " ") ((λ entry, or_else entry []) <$> entries)) in
              if falsy translated then ret None
              else if (len text >? 4500)%Z
                   then ret (Some (translated ++ GOOGLE_TRUNCATION_NOTE))
                   else ret (Some translated)
          end.

(** *** [translateWithMyMemory] *)

Definition translateWithMyMemory (env : Env)
    (text sourceLang targetLang : jsstring) : M World (option jsstring) :=
  try_catch
    (let truncated :=
       if (len text >? 500)%Z then slice0 500 text else text in
     (* encodeURIComponent(truncated) *)
     if negb (well_formed truncated) then throw URIError
     else
       let query := {| mm_q := truncated; langpair := (sourceLang, targetLang) |} in
       let* response := fetch (CallMyMemory query) (mymemory env query) in
       if negb (ok response.1) then ret None
       else
         let* parsed_body := json response.2 in
         let* data := of_object parsed_body in
         if bool_decide (responseStatus data = Some 200%Z)
            && truthy_opt (responseData_translatedText data)
         then
           let translated := default [] (responseData_translatedText data) in
           if (len text >? 500)%Z
           then ret (Some (translated ++ MYMEMORY_TRUNCATION_NOTE))
           else ret (Some translated)
         else ret None)
    (λ _, ret None).

(** *** [POST] *)

(** The request body, whose fields are strings, as the hook sends them; a
    field is [None] when it is absent. *)
Record TranslateRequest := {
  text : option jsstring;
  sourceLang : option jsstring;
  targetLang : option jsstring;
}.

(** The JSON payload of a response; a field is [None] when the object
    literal of the source does not have it. *)
Record Payload := {
  p_error : option jsstring;
  translatedText : option jsstring;
  timeMs : option Z;
  isFallback : option bool;
  p_source : option jsstring;
  note : option jsstring;
}.

Record Response := {
  status : Z;
  payload : Payload;
}.

Definition MISSING_FIELDS : Response :=
  {| status := 400;
     payload := {| p_error := Some (lit "Missing required fields: text, sourceLang, targetLang");
                   translatedText := None; timeMs := None; isFallback := None;
                   p_source := None; note := None |} |}.

Definition noop_response (text : jsstring) : Response :=
  {| status := 200;
     payload := {| p_error := None; translatedText := Some text;
                   timeMs := Some 0%Z; isFallback := None;
                   p_source := Some (lit "noop"); note := None |} |}.

Definition google_response (translation : jsstring) (elapsed : Z) : Response :=
  {| status := 200;
     payload := {| p_error := None; translatedText := Some translation;
                   timeMs := Some elapsed; isFallback := None;
                   p_source := Some (lit "google"); note := None |} |}.

Definition cloud_fallback_response (translation : jsstring) (elapsed : Z) : Response :=
  {| status := 200;
     payload := {| p_error := None; translatedText := Some translation;
                   timeMs := Some elapsed; isFallback := None;
                   p_source := Some (lit "cloud-fallback");
                   note := Some (lit "Google Translate unavailable, using MyMemory free tier fallback.") |} |}.

(** [`Translation unavailable for ${langName}. Returned original text.`] *)
Definition unavailable_note (langName : jsstring) : jsstring :=
  lit "Translation unavailable for " ++ langName ++ lit ". Returned original text.".

Definition degraded_response (text targetLang : jsstring) : Response :=
  let langName :=
    property_or (lookup_property LANGUAGE_NAMES targetLang) targetLang in
  {| status := 503;
     payload := {| p_error := None; translatedText := Some text;
                   timeMs := Some 0%Z; isFallback := Some true;
                   p_source := Some (lit "none");
                   note := Some (unavailable_note langName) |} |}.

Definition SERVICE_ERROR : Response :=
  {| status := 500;
     payload := {| p_error := Some (lit "Failed to process translation");
                   translatedText := Some (lit "Translation service error. Please try again.");
                   timeMs := None; isFallback := None;
                   p_source := None; note := None |} |}.

Definition POST (env : Env) (req : parsed TranslateRequest) : M World Response :=
  try_catch
    (let* parsed_body := json req in
     let* body := of_object parsed_body in
     if falsy_opt (text body) || falsy_opt (sourceLang body)
        || falsy_opt (targetLang body)
     then ret MISSING_FIELDS
     else
       let text := default [] (text body) in
       let sourceLang := default [] (sourceLang body) in
       let targetLang := default [] (targetLang body) in
       if eqb sourceLang targetLang then ret (noop_response text)
       else
         let* startTime := Date_now env in
         let* googleTranslation :=
           translateWithGoogleAPI env text sourceLang targetLang in
         if truthy_opt googleTranslation then
           let* now := Date_now env in
           ret (google_response (default [] googleTranslation) (now - startTime))
         else
           let* fallback :=
             if eqb sourceLang (lit "en") && in_LANGUAGE_NAMES targetLang then
               let* fallbackStart := Date_now env in
               let* cloudTranslation :=
                 translateWithMyMemory env text sourceLang targetLang in
               if truthy_opt cloudTranslation then
                 let* now := Date_now env in
                 ret (Some (cloud_fallback_response
                              (default [] cloudTranslation) (now - fallbackStart)))
               else ret None
             else ret None in
           match fallback with
           | Some response => ret response
           | None => ret (degraded_response text targetLang)
           end)
    (λ _, ret SERVICE_ERROR).

End Route.

(** ** The [useTranslation] hook *)

Module Hook.
Import JS Eff.
Local Open Scope eff_scope.

(** The two pieces of React state of the hook, and the requests it has
    sent to [/api/translate]. *)
Record State := {
  isTranslating : bool;
  error : option jsstring;
  requests : list Route.TranslateRequest;
}.

Definition initial : State :=
  {| isTranslating := false; error := None; requests := [] |}.

Definition setIsTranslating (b : bool) (st : State) : State :=
  {| isTranslating := b; error := error st; requests := requests st |}.

Definition setError (e : option jsstring) (st : State) : State :=
  {| isTranslating := isTranslating st; error := e; requests := requests st |}.

Definition send (r : Route.TranslateRequest) (st : State) : State :=
  {| isTranslating := isTranslating st; error := error st;
     requests := requests st ++ [r] |}.

(** [translate] up to its [await fetch(...)]: either it has returned
    already, or a request is under way. *)
Inductive started : Type :=
| Returned (result : jsstring) (st : State)
| Awaiting (request : Route.TranslateRequest) (st : State).

Definition translate_start (text sourceLang targetLang : jsstring)
    (st : State) : started :=
  if falsy (trim text) then Returned [] st
  else
    let st := setIsTranslating true st in
    let st := setError None st in
    let request := {| Route.text := Some text;
                      Route.sourceLang := Some sourceLang;
                      Route.targetLang := Some targetLang |} in
    Awaiting request (send request st).

(** [translate] from the moment the [fetch] settles: the rest of the
    [try] block, the [catch] and the [finally]. *)
Definition translate_resume (text : jsstring)
    (outcome : fetched Route.Payload) : M State jsstring :=
  try_finally
    (try_catch
       (let* response :=
          match outcome with
          | Rejects => throw FetchError
          | Responds status body => ret (status, body)
          end in
        if negb (ok response.1) then throw (Error "Translation failed")
        else
          let* parsed_body := json response.2 in
          let* data := of_object parsed_body in
          if bool_decide (Route.isFallback data = Some true)
             && bool_decide (Route.p_source data = Some (lit "none"))
          then ret text
          else if truthy_opt (Route.translatedText data)
               then ret (default [] (Route.translatedText data))
               else ret text)
       (λ _, let* _ := modify (setError (Some (lit "Failed to translate text"))) in
             ret text))
    (setIsTranslating false).

(** One whole call, against a server that answers [server request]. *)
Definition translate (server : Route.TranslateRequest → fetched Route.Payload)
    (text sourceLang targetLang : jsstring) : M State jsstring :=
  λ st, match translate_start text sourceLang targetLang st with
        | Returned result st' => (Return result, st')
        | Awaiting request st' => translate_resume text (server request) st'
        end.

(** The server of the hook when it is the translate route in environment
    [env]: [NextResponse.json] always produces a JSON body. *)
Definition route_server (env : Route.Env)
    (request : Route.TranslateRequest) : fetched Route.Payload :=
  match Route.POST env (JsonObject request) Route.fresh with
  | (Return response, _) =>
      Responds (Route.status response) (JsonObject (Route.payload response))
  | (Throw _, _) => Rejects
  end.

End Hook.

(** ** The auto-retranslation controller of [RegionalNarrative] *)

Module Narrative.
Import JS Eff.
Local Open Scope eff_scope.

Definition supportedLanguages : list (jsstring * jsstring) :=
  [ (lit "hi", lit "Hindi"); (lit "bn", lit "Bengali"); (lit "ta", lit "Tamil");
    (lit "te", lit "Telugu"); (lit "kn", lit "Kannada");
    (lit "ml", lit "Malayalam"); (lit "mr", lit "Marathi");
    (lit "gu", lit "Gujarati"); (lit "pa", lit "Punjabi"); (lit "or", lit "Odia");
    (lit "as", lit "Assamese"); (lit "ur", lit "Urdu"); (lit "ne", lit "Nepali");
    (lit "sa", lit "Sanskrit"); (lit "mni", lit "Manipuri") ].

(** [supportedLanguages.find(l => l.code === targetLang)?.name || targetLang] *)
Definition langName (targetLang : jsstring) : jsstring :=
  or_else (snd <$> find (λ l, eqb (fst l) targetLang) supportedLanguages)
          targetLang.

(** The rule of forty U+2501 that separates the narrative from a note. *)
Definition RULE : jsstring := replicate 40 9473%N.

Definition PLACEHOLDER_MARK : jsstring := lit "[Translation placeholder".
Definition NOTE_MARK : jsstring := lit "[Note: Translation service".

Definition unavailable_note (text targetLang : jsstring) : jsstring :=
  text ++ [10; 10]%N ++ RULE ++ [10]%N ++
  lit "[Note: Translation service is not available. The narrative above is in English. For full "
  ++ langName targetLang ++
  lit " translation support, configure the IndicTrans2 service.]".

Definition error_note (text targetLang : jsstring) : jsstring :=
  text ++ [10; 10]%N ++ RULE ++ [10]%N ++
  lit "[Note: Translation service error. The narrative above is in English. For full "
  ++ langName targetLang ++
  lit " translation support, configure the IndicTrans2 service.]".

(** A call of [handleTranslate] suspended at [await translateText(...)],
    with what its closure and that of [translateContent] captured. *)
Record Pending := {
  p_text : jsstring;          (* originalGeneratedText of that render *)
  p_targetLang : jsstring;    (* selectedLanguage of that render *)
}.

Record State := {
  (* useState *)
  originalGeneratedText : jsstring;
  generatedText : jsstring;            (* what is displayed *)
  selectedLanguage : jsstring;
  isTranslating : bool;
  translationProgress : Z;
  (* useRef *)
  lastTranslatedLangRef : jsstring;
  hasShownTranslationNoteRef : bool;
  (* useTranslation() *)
  hook : Hook.State;
  (* suspended calls, by request number *)
  inflight : gmap nat Pending;
  next_request : nat;
}.

Definition setGeneratedText (v : jsstring) (st : State) : State :=
  {| originalGeneratedText := originalGeneratedText st; generatedText := v;
     selectedLanguage := selectedLanguage st; isTranslating := isTranslating st;
     translationProgress := translationProgress st;
     lastTranslatedLangRef := lastTranslatedLangRef st;
     hasShownTranslationNoteRef := hasShownTranslationNoteRef st;
     hook := hook st; inflight := inflight st; next_request := next_request st |}.

Definition setSelectedLanguage (v : jsstring) (st : State) : State :=
  {| originalGeneratedText := originalGeneratedText st;
     generatedText := generatedText st;
     selectedLanguage := v; isTranslating := isTranslating st;
     translationProgress := translationProgress st;
     lastTranslatedLangRef := lastTranslatedLangRef st;
     hasShownTranslationNoteRef := hasShownTranslationNoteRef st;
     hook := hook st; inflight := inflight st; next_request := next_request st |}.

Definition setIsTranslating (v : bool) (st : State) : State :=
  {| originalGeneratedText := originalGeneratedText st;
     generatedText := generatedText st;
     selectedLanguage := selectedLanguage st; isTranslating := v;
     translationProgress := translationProgress st;
     lastTranslatedLangRef := lastTranslatedLangRef st;
     hasShownTranslationNoteRef := hasShownTranslationNoteRef st;
     hook := hook st; inflight := inflight st; next_request := next_request st |}.

Definition setTranslationProgress (v : Z) (st : State) : State :=
  {| originalGeneratedText := originalGeneratedText st;
     generatedText := generatedText st;
     selectedLanguage := selectedLanguage st; isTranslating := isTranslating st;
     translationProgress := v;
     lastTranslatedLangRef := lastTranslatedLangRef st;
     hasShownTranslationNoteRef := hasShownTranslationNoteRef st;
     hook := hook st; inflight := inflight st; next_request := next_request st |}.

Definition set_lastTranslatedLangRef (v : jsstring) (st : State) : State :=
  {| originalGeneratedText := originalGeneratedText st;
     generatedText := generatedText st;
     selectedLanguage := selectedLanguage st; isTranslating := isTranslating st;
     translationProgress := translationProgress st;
     lastTranslatedLangRef := v;
     hasShownTranslationNoteRef := hasShownTranslationNoteRef st;
     hook := hook st; inflight := inflight st; next_request := next_request st |}.

Definition set_hasShownTranslationNoteRef (v : bool) (st : State) : State :=
  {| originalGeneratedText := originalGeneratedText st;
     generatedText := generatedText st;
     selectedLanguage := selectedLanguage st; isTranslating := isTranslating st;
     translationProgress := translationProgress st;
     lastTranslatedLangRef := lastTranslatedLangRef st;
     hasShownTranslationNoteRef := v;
     hook := hook st; inflight := inflight st; next_request := next_request st |}.

Definition set_hook (v : Hook.State) (st : State) : State :=
  {| originalGeneratedText := originalGeneratedText st;
     generatedText := generatedText st;
     selectedLanguage := selectedLanguage st; isTranslating := isTranslating st;
     translationProgress := translationProgress st;
     lastTranslatedLangRef := lastTranslatedLangRef st;
     hasShownTranslationNoteRef := hasShownTranslationNoteRef st;
     hook := v; inflight := inflight st; next_request := next_request st |}.

Definition set_inflight (v : gmap nat Pending) (n : nat) (st : State) : State :=
  {| originalGeneratedText := originalGeneratedText st;
     generatedText := generatedText st;
     selectedLanguage := selectedLanguage st; isTranslating := isTranslating st;
     translationProgress := translationProgress st;
     lastTranslatedLangRef := lastTranslatedLangRef st;
     hasShownTranslationNoteRef := hasShownTranslationNoteRef st;
     hook := hook st; inflight := v; next_request := n |}.

(** The number of requests this session has put on the network. *)
Definition network_calls (st : State) : nat := length (Hook.requests (hook st)).

(** *** [handleTranslate] *)

(** From the moment [translateText] settles with [settled]: the rest of the
    [try] block, the [catch] and the [finally]. *)
Definition handleTranslate_resume (text targetLang : jsstring)
    (settled : completion jsstring) : M State jsstring :=
  try_finally
    (try_catch
       (let* translatedText := (λ st, (settled, st)) in
        let* _ := modify (setTranslationProgress 100) in
        if eqb translatedText text || falsy translatedText
        then ret (unavailable_note text targetLang)
        else ret translatedText)
       (λ _, ret (error_note text targetLang)))
    (setIsTranslating false).

(** *** The body of [translateContent] after [await handleTranslate(...)] *)

Definition translateContent_resume (result : completion jsstring)
    (st : State) : State :=
  match result with
  | Return translated =>
      let st := setGeneratedText translated st in
      if includes NOTE_MARK translated
      then set_hasShownTranslationNoteRef true st
      else st
  | Throw _ => st
  end.

(** [translateText] has settled: [handleTranslate] and then
    [translateContent] run to their end. *)
Definition settle (p : Pending) (settled : completion jsstring)
    (st : State) : State :=
  let '(result, st) :=
    handleTranslate_resume (p_text p) (p_targetLang p) settled st in
  translateContent_resume result st.

(** [handleTranslate(text, targetLang)] as called from [translateContent],
    up to the point where it is suspended on the network.  When it returns
    without a request, [translateContent] resumes with its result before
    any other event is handled. *)
Definition handleTranslate_start (text targetLang : jsstring)
    (st : State) : State :=
  if falsy text || falsy targetLang || eqb targetLang (lit "en")
  then translateContent_resume (Return text) st
  else if includes PLACEHOLDER_MARK text || includes NOTE_MARK text
  then translateContent_resume (Return text) st
  else
    let st := setIsTranslating true st in
    let st := setTranslationProgress 30 st in
    let p := {| p_text := text; p_targetLang := targetLang |} in
    match Hook.translate_start text (lit "en") targetLang (hook st) with
    | Hook.Returned result h => settle p (Return result) (set_hook h st)
    | Hook.Awaiting _ h =>
        set_inflight (<[next_request st := p]> (inflight st))
                     (S (next_request st)) (set_hook h st)
    end.

(** *** The auto-translate [useEffect] *)

Definition effect (st : State) : State :=
  if truthy (originalGeneratedText st) && truthy (selectedLanguage st)
     && negb (eqb (selectedLanguage st) (lit "en"))
     && negb (eqb (lastTranslatedLangRef st) (selectedLanguage st))
  then
    (* translateContent() *)
    let selected := selectedLanguage st in
    let original := originalGeneratedText st in
    let st := set_lastTranslatedLangRef selected st in
    let st := set_hasShownTranslationNoteRef false st in
    handleTranslate_start original selected st
  else if eqb (selectedLanguage st) (lit "en") && truthy (originalGeneratedText st)
  then
    let st := setGeneratedText (originalGeneratedText st) st in
    let st := set_lastTranslatedLangRef (lit "en") st in
    set_hasShownTranslationNoteRef false st
  else st.

(** *** The session as a transition system *)

Inductive Event : Type :=
| SelectLanguage (code : jsstring)    (* the user picks a language *)
| Render                              (* any other re-render *)
| Respond (request : nat) (outcome : fetched Route.Payload)
                                      (* the answer to a request arrives *)
| ProgressTimeout.                    (* the 500 ms timer of the progress bar *)

Definition step (st : State) (ev : Event) : State :=
  match ev with
  | SelectLanguage code => effect (setSelectedLanguage code st)
  | Render => effect st
  | Respond request outcome =>
      match inflight st !! request with
      | None => st
      | Some p =>
          let st := set_inflight (delete request (inflight st))
                                 (next_request st) st in
          let '(settled, h) :=
            Hook.translate_resume (p_text p) outcome (hook st) in
          settle p settled (set_hook h st)
      end
  | ProgressTimeout => setTranslationProgress 0 st
  end.


End Narrative.

(** ** The alerts proxy route and the crisis-alert poller *)

Module Alerts.
Import JS Eff.
Local Open Scope eff_scope.

Section WithAlert.

(** An element of the [alerts] array: a record of the monitoring
    service, which this repository stores and displays as it is. *)
Context {CrisisAlert : Type}.

(** What is read of a JSON body: [data.alerts] when it is an array, and
    [data.error]. *)
Record AlertsData := {
  alerts_field : option (list CrisisAlert);
  error_field : option jsstring;
}.

(** *** [GET] of [/api/alerts] *)

Record Response := {
  status : Z;
  body : parsed AlertsData;
}.

(** [err?.message || 'Internal error'], with [message_of err] for
    [err?.message]. *)
Definition internal_error (message_of : exn → option jsstring)
    (err : exn) : Response :=
  {| status := 500;
     body := JsonObject
               {| alerts_field := Some [];
                  error_field := Some (or_else (message_of err)
                                               (lit "Internal error")) |} |}.

Definition BAD_GATEWAY : Response :=
  {| status := 502;
     body := JsonObject {| alerts_field := Some [];
                           error_field := Some (lit "Bad gateway") |} |}.

Definition GET (message_of : exn → option jsstring)
    (upstream : fetched AlertsData) : M unit Response :=
  try_catch
    (let* res :=
       match upstream with
       | Rejects => throw FetchError
       | Responds status body => ret (status, body)
       end in
     if negb (ok res.1) then
       let* _ := read_text res.2 in           (* for the log *)
       ret BAD_GATEWAY
     else
       let* data := json res.2 in
       ret {| status := 200;
              body := match data with
                      | None => JsonNull
                      | Some d => JsonObject d
                      end |})
    (λ err, ret (internal_error message_of err)).

(** What the browser receives from the proxy. *)
Definition proxy (message_of : exn → option jsstring)
    (upstream : fetched AlertsData) : fetched AlertsData :=
  match GET message_of upstream tt with
  | (Return response, _) => Responds (status response) (body response)
  | (Throw _, _) => Rejects
  end.

(** *** [fetchAlerts] of [CrisisPredictor] *)

Record State := {
  alerts : list CrisisAlert;       (* useState: the displayed list *)
  loadingAlerts : bool;            (* useState *)
  mounted : bool;                  (* the flag of the effect's closure *)
}.

Definition setAlerts (v : list CrisisAlert) (st : State) : State :=
  {| alerts := v; loadingAlerts := loadingAlerts st; mounted := mounted st |}.

Definition setLoadingAlerts (v : bool) (st : State) : State :=
  {| alerts := alerts st; loadingAlerts := v; mounted := mounted st |}.

(** The cleanup of the effect. *)
Definition unmount (st : State) : State :=
  {| alerts := alerts st; loadingAlerts := loadingAlerts st; mounted := false |}.

(** [fetchAlerts] up to its [await fetch('/api/alerts')]. *)
Definition fetchAlerts_start (st : State) : State := setLoadingAlerts true st.

(** [fetchAlerts] from the moment the [fetch] settles. *)
Definition fetchAlerts_resume (outcome : fetched AlertsData) : M State unit :=
  try_finally
    (try_catch
       (let* res :=
          match outcome with
          | Rejects => throw FetchError
          | Responds status body => ret (status, body)
          end in
        if negb (ok res.1) then throw (Error "Failed to fetch alerts")
        else
          let* parsed_body := json res.2 in
          let* data := of_object parsed_body in
          let* st := get in
          match alerts_field data with
          | Some (a :: l) =>
              if mounted st then modify (setAlerts (a :: l)) else ret tt
          | _ => ret tt
          end)
       (λ _, ret tt))
    (λ st, if mounted st then setLoadingAlerts false st else st).

(** One poll, the view staying as it is while the request is under way. *)
Definition fetchAlerts (outcome : fetched AlertsData) : M State unit :=
  λ st, fetchAlerts_resume outcome (fetchAlerts_start st).

End WithAlert.

Arguments AlertsData : clear implicits.
Arguments Response : clear implicits.
Arguments State : clear implicits.

End Alerts.

(** ** Observations on a run, and concrete scenarios *)

Module Observe.
Import JS Eff Route.

(** The world after the first reading of the clock. *)
Definition tick (w : World) : World :=
  {| calls := calls w; clock_reads := S (clock_reads w) |}.

(** What the primary provider yields for a request, whatever was sent
    before. *)
Definition primary_result (env : Env) (text sourceLang targetLang : jsstring)
  : completion (option jsstring) :=
  (translateWithGoogleAPI env text sourceLang targetLang fresh).1.

(** The primary provider was asked and gave no translation: the route goes
    on to its fallback. *)
Definition primary_failed (env : Env) (text sourceLang targetLang : jsstring)
  : Prop :=
  primary_result env text sourceLang targetLang = Return None.

Definition secondary_result (env : Env) (text sourceLang targetLang : jsstring)
  : completion (option jsstring) :=
  (translateWithMyMemory env text sourceLang targetLang fresh).1.

Definition is_MyMemory (c : Call) : bool :=
  match c with CallMyMemory _ => true | CallGoogle _ => false end.

(** A request went to the secondary provider. *)
Definition secondary_attempted (w : World) : Prop :=
  ∃ c, c ∈ calls w ∧ is_MyMemory c = true.

(** A request with all three fields. *)
Definition request (text sourceLang targetLang : jsstring)
  : parsed TranslateRequest :=
  JsonObject {| text := Some text; sourceLang := Some sourceLang;
                targetLang := Some targetLang |}.

(** The route reaches its providers: the three fields are truthy and the
    two codes differ. *)
Definition reaches_providers (text sourceLang targetLang : jsstring) : Prop :=
  text ≠ [] ∧ sourceLang ≠ [] ∧ targetLang ≠ [] ∧ sourceLang ≠ targetLang.

(** The answer does not let the hook reach its [return data...]: the
    request was rejected, the status is not 2xx, or the body is not a JSON
    object. *)
Definition transport_failure (outcome : fetched Payload) : Prop :=
  match outcome with
  | Rejects => True
  | Responds status body =>
      ok status = false ∨ body = NotJson ∨ body = JsonNull
      ∨ body = Unreadable
  end.

(** The message of the error flag of the hook. *)
Definition FAILED : jsstring := lit "Failed to translate text".

End Observe.

Module Polling.
Import JS Eff Alerts.

(** The poll does not get a list out of the answer: the request was
    rejected, the status is not 2xx (the proxy answers 502 or 500 when the
    monitoring service fails), or the body is not a JSON object. *)
Definition poll_failure {A} (outcome : fetched (AlertsData A)) : Prop :=
  match outcome with
  | Rejects => True
  | Responds status body =>
      ok status = false ∨ body = NotJson ∨ body = JsonNull
      ∨ body = Unreadable
  end.

(** The poll gets the non-empty list [l]. *)
Definition poll_success {A} (outcome : fetched (AlertsData A))
    (l : list A) : Prop :=
  l ≠ [] ∧
  ∃ status data, outcome = Responds status (JsonObject data)
                 ∧ ok status = true ∧ alerts_field data = Some l.

(** The monitoring service cannot be reached, or answers with a status
    that is not 2xx, or with a body that is not JSON. *)
Definition upstream_failure {A} (upstream : fetched (AlertsData A)) : Prop :=
  match upstream with
  | Rejects => True
  | Responds status body =>
      ok status = false ∨ body = NotJson ∨ body = Unreadable
  end.

(** The message of an exception, as far as a scenario needs one. *)
Definition no_message : exn → option jsstring := λ _, None.

(** A view that shows the alerts 1 and 2 (alerts are numbers here). *)
Definition showing : State nat :=
  {| alerts := [1; 2]; loadingAlerts := false; mounted := true |}.

End Polling.

Module Session.
Import JS Eff Narrative.

(** What the hook hands to [handleTranslate] for an answer of the
    server. *)
Definition hook_result (text : jsstring) (outcome : fetched Route.Payload)
  : completion jsstring :=
  (Hook.translate_resume text outcome Hook.initial).1.

(** The guard of the effect: the conditions under which it starts
    [translateContent]. *)
Definition guard (st : State) : Prop :=
  originalGeneratedText st ≠ []
  ∧ selectedLanguage st ≠ []
  ∧ selectedLanguage st ≠ lit "en"
  ∧ selectedLanguage st ≠ lastTranslatedLangRef st.

(** A narrative has just been generated and is displayed in English; no
    language was selected. *)
Definition generated (narrative : jsstring) : State :=
  {| originalGeneratedText := narrative;
     generatedText := narrative;
     selectedLanguage := [];
     isTranslating := false;
     translationProgress := 0;
     lastTranslatedLangRef := lit "en";
     hasShownTranslationNoteRef := false;
     hook := Hook.initial;
     inflight := ∅;
     next_request := 0 |}.

(** What a session displays once the suspended call [p] has resumed with
    [settled]: the display does not depend on the rest of the state. *)
Definition displayed (p : Pending) (settled : completion jsstring) : jsstring :=
  generatedText (settle p settled (generated [])).

(** The text that a session displays for language [targetLang] when the
    answer to its request is [outcome]. *)
Definition rendering (text targetLang : jsstring)
    (outcome : fetched Route.Payload) : jsstring :=
  displayed {| p_text := text; p_targetLang := targetLang |}
            (hook_result text outcome).



(** A narrative that the effect submits to the hook, and that the hook
    sends: not blank, and without the two marks. *)
Definition translatable (text : jsstring) : Prop :=
  trim text ≠ []
  ∧ includes PLACEHOLDER_MARK text = false
  ∧ includes NOTE_MARK text = false.


End Session.

Module Scenario.
Import JS Eff Route.

(** No API key, MyMemory unreachable. *)
Definition offline : Env :=
  {| GOOGLE_TRANSLATE_API_KEY := None;
     google := λ _, Rejects;
     mymemory := λ _, Rejects;
     clock := λ n, (1000 + Z.of_nat n)%Z |}.

(** An API key is configured, but no provider can be reached: every
    [fetch] is rejected (connection refused, or the 8 s timeout). *)
Definition unreachable : Env :=
  {| GOOGLE_TRANSLATE_API_KEY := Some (lit "key");
     google := λ _, Rejects;
     mymemory := λ _, Rejects;
     clock := λ n, (1000 + Z.of_nat n)%Z |}.

(** Google answers 403, MyMemory answers 429. *)
Definition refusing : Env :=
  {| GOOGLE_TRANSLATE_API_KEY := Some (lit "key");
     google := λ _, Responds 403 NotJson;
     mymemory := λ _, Responds 429 NotJson;
     clock := λ n, (1000 + Z.of_nat n)%Z |}.

(** Both providers answer with the query in capital [X]s: one per code
    unit received. *)
Definition crossing_out (s : jsstring) : jsstring := (λ _, 88%N) <$> s.

Definition echoing : Env :=
  {| GOOGLE_TRANSLATE_API_KEY := Some (lit "key");
     google := λ query,
       Responds 200 (JsonObject {| error := false;
                                   translations := Some [Some (crossing_out (q query))] |});
     mymemory := λ query,
       Responds 200 (JsonObject {| responseStatus := Some 200%Z;
                                   responseData_translatedText :=
                                     Some (crossing_out (mm_q query)) |});
     clock := λ n, (1000 + Z.of_nat n)%Z |}.

(** As [echoing], without an API key: only MyMemory is asked. *)
Definition echoing_without_key : Env :=
  {| GOOGLE_TRANSLATE_API_KEY := None;
     google := google echoing;
     mymemory := mymemory echoing;
     clock := clock echoing |}.

Definition hello : jsstring := lit "Hello world".


End Scenario.

(** ** The health check of the translate route *)

Module Health.
Import JS Eff Route.

Record Report := {
  health : jsstring;               (* the field [status] of the body *)
  provider : jsstring;
  hasApiKey : bool;
  message : option jsstring;
}.

Record Response := {
  status : Z;
  report : Report;
}.

Definition GET (env : Env) : Response :=
  if falsy_opt (GOOGLE_TRANSLATE_API_KEY env)
  then {| status := 503;
          report := {| health := lit "unhealthy"; provider := lit "google";
                       hasApiKey := false;
                       message := Some (lit "GOOGLE_TRANSLATE_API_KEY is not set") |} |}
  else {| status := 200;
          report := {| health := lit "healthy"; provider := lit "google";
                       hasApiKey := true; message := None |} |}.

End Health.

Module ObserveRoute.
Import JS Eff Route.

Definition is_Google (c : Call) : bool :=
  match c with CallGoogle _ => true | CallMyMemory _ => false end.

(** A request went to the primary provider. *)
Definition primary_attempted (w : World) : Prop :=
  ∃ c, c ∈ calls w ∧ is_Google c = true.

(** The requests of one run of [POST]: at most one to Google, followed by
    at most one to MyMemory. *)
Definition chain_shaped (sent : list Call) : Prop :=
  sent = []
  ∨ (∃ g, sent = [CallGoogle g])
  ∨ (∃ m, sent = [CallMyMemory m])
  ∨ (∃ g m, sent = [CallGoogle g; CallMyMemory m]).

(** A body in which one of the three fields is absent or empty. *)
Definition incomplete (body : TranslateRequest) : Prop :=
  falsy_opt (text body) || falsy_opt (sourceLang body)
  || falsy_opt (targetLang body) = true.

(** The text that Google gives back for an array of translations. *)
Definition joined (entries : list (option jsstring)) : jsstring :=
  trim (join (lit " ") ((λ entry, or_else entry []) <$> entries)).

(** A well-formed text of 501 code units whose 500th and 501st code units
    are the two halves of U+1F600. *)
Definition split_pair : jsstring :=
  replicate (Z.to_nat 499) 97%N ++ [55357; 56832]%N.

End ObserveRoute.

(** ** The translate route, IndicTrans2 variant with the cloud fallback *)

Module CloudRoute.
Import JS Eff.
Local Open Scope eff_scope.

Definition LANGUAGE_NAMES : gmap jsstring jsstring :=
  list_to_map
    [ (lit "hi", lit "hindi"); (lit "bn", lit "bengali"); (lit "ta", lit "tamil");
      (lit "te", lit "telugu"); (lit "kn", lit "kannada");
      (lit "ml", lit "malayalam"); (lit "mr", lit "marathi");
      (lit "gu", lit "gujarati"); (lit "pa", lit "punjabi");
      (lit "or", lit "oriya"); (lit "as", lit "assamese"); (lit "ur", lit "urdu");
      (lit "ne", lit "nepali"); (lit "sa", lit "sanskrit");
      (lit "mni", lit "manipuri") ].

(** [k in LANGUAGE_NAMES] *)
Definition in_LANGUAGE_NAMES (k : jsstring) : bool :=
  has_property LANGUAGE_NAMES k.

Definition langCodeMap : gmap jsstring jsstring :=
  list_to_map [ (lit "or", lit "or"); (lit "mni", lit "mni") ].

Definition DEFAULT_SERVICE_URL : jsstring := lit "http://127.0.0.1:5000".

Definition CLOUD_TRUNCATION_NOTE : jsstring :=
  [10; 10]%N ++
  lit "[Note: Translation truncated to 500 characters due to free tier limits]".

(** The JSON body of a request to the IndicTrans2 service. *)
Record ServiceQuery := {
  sq_text : jsstring;
  sq_sourceLang : jsstring;
  sq_targetLang : jsstring;
}.

(** What the route reads of the answer of the service. *)
Record ServiceData := {
  sd_translatedText : option jsstring;
  sd_timeMs : option Z;
}.

Record Env := {
  TRANSLATION_SERVICE_URL_var : option jsstring;   (* process.env *)
  indictrans : ServiceQuery → fetched ServiceData;
  mymemory : Route.MyMemoryQuery → fetched Route.MyMemoryData;
  clock : nat → Z;
}.

(** [process.env.TRANSLATION_SERVICE_URL || 'http://127.0.0.1:5000'] *)
Definition TRANSLATION_SERVICE_URL (env : Env) : jsstring :=
  or_else (TRANSLATION_SERVICE_URL_var env) DEFAULT_SERVICE_URL.

Inductive Call : Type :=
| CallService (query : ServiceQuery)
| CallCloud (query : Route.MyMemoryQuery).

Record World := {
  calls : list Call;
  clock_reads : nat;
}.

Definition fresh : World := {| calls := []; clock_reads := 0 |}.

Definition send (c : Call) (w : World) : World :=
  {| calls := calls w ++ [c]; clock_reads := clock_reads w |}.

Definition Date_now (env : Env) : M World Z :=
  λ w, (Return (clock env (clock_reads w)),
        {| calls := calls w; clock_reads := S (clock_reads w) |}).

Definition fetch {B} (c : Call) (outcome : fetched B) : M World (Z * parsed B) :=
  let* _ := modify (send c) in
  match outcome with
  | Rejects => throw FetchError
  | Responds status body => ret (status, body)
  end.

(** *** [translateWithCloudAPI] *)

Definition translateWithCloudAPI (env : Env)
    (text sourceLang targetLang : jsstring) : M World (option jsstring) :=
  try_catch
    (let sourceCode :=
       if eqb sourceLang (lit "en") then lit "en"
       else property_or (lookup_property langCodeMap sourceLang) sourceLang in
     let targetCode :=
       property_or (lookup_property langCodeMap targetLang) targetLang in
     let textToTranslate :=
       if (len text >? 500)%Z then slice0 500 text else text in
     (* encodeURIComponent(textToTranslate) *)
     if negb (well_formed textToTranslate) then throw URIError
     else
       let query := {| Route.mm_q := textToTranslate;
                       Route.langpair := (sourceCode, targetCode) |} in
       let* response := fetch (CallCloud query) (mymemory env query) in
       if negb (ok response.1) then ret None
       else
         let* parsed_body := json response.2 in
         let* data := of_object parsed_body in
         if bool_decide (Route.responseStatus data = Some 200%Z)
            && truthy_opt (Route.responseData_translatedText data)
         then
           let translated := default [] (Route.responseData_translatedText data) in
           if (len text >? 500)%Z
           then ret (Some (translated ++ CLOUD_TRUNCATION_NOTE))
           else ret (Some translated)
         else ret None)
    (λ _, ret None).

(** *** [getFallbackTranslation] *)

Definition getFallbackTranslation (text sourceLang targetLang : jsstring)
  : jsstring :=
  if eqb sourceLang targetLang then text else text.

(** *** [POST] *)

Definition indictrans2_response (data : ServiceData) : Route.Response :=
  {| Route.status := 200;
     Route.payload :=
       {| Route.p_error := None;
          Route.translatedText := sd_translatedText data;
          Route.timeMs := sd_timeMs data;
          Route.isFallback := None;
          Route.p_source := Some (lit "indictrans2");
          Route.note := None |} |}.

Definition cloud_response (translation : jsstring) (elapsed : Z) : Route.Response :=
  {| Route.status := 200;
     Route.payload :=
       {| Route.p_error := None;
          Route.translatedText := Some translation;
          Route.timeMs := Some elapsed;
          Route.isFallback := None;
          Route.p_source := Some (lit "cloud");
          Route.note := Some (lit "Using cloud translation API (free tier). For best quality IndicTrans2 translations, configure TRANSLATION_SERVICE_URL with your Python service endpoint.") |} |}.

Definition fallback_response (fallbackText : jsstring) : Route.Response :=
  {| Route.status := 200;
     Route.payload :=
       {| Route.p_error := None;
          Route.translatedText := Some fallbackText;
          Route.timeMs := Some 0%Z;
          Route.isFallback := Some true;
          Route.p_source := Some (lit "none");
          Route.note := Some (lit "Translation service is not available. The text is returned in the original language. For full translation support, configure TRANSLATION_SERVICE_URL with your Python service endpoint or enable cloud translation.") |} |}.

Definition usePythonService (env : Env) : bool :=
  truthy (TRANSLATION_SERVICE_URL env)
  && negb (includes (lit "127.0.0.1") (TRANSLATION_SERVICE_URL env))
  && negb (includes (lit "localhost") (TRANSLATION_SERVICE_URL env)).

(** The block [if (usePythonService) { try { ... } catch { ... } }] of
    [POST]: the answer with which [POST] returns from inside it, if any. *)
Definition try_service (env : Env) (text sourceLang targetLang : jsstring)
  : M World (option Route.Response) :=
  if usePythonService env then
    try_catch
      (let query := {| sq_text := text; sq_sourceLang := sourceLang;
                       sq_targetLang := targetLang |} in
       let* response := fetch (CallService query) (indictrans env query) in
       if ok response.1 then
         let* parsed_data := json response.2 in
         let* data := of_object parsed_data in
         ret (Some (indictrans2_response data))
       else ret None)
      (λ _, ret None)
  else ret None.

(** The block [if (sourceLang === 'en' && targetLang in LANGUAGE_NAMES)
    { ... }] of [POST], likewise. *)
Definition try_cloud (env : Env) (text sourceLang targetLang : jsstring)
  : M World (option Route.Response) :=
  if eqb sourceLang (lit "en") && in_LANGUAGE_NAMES targetLang then
    let* startTime := Date_now env in
    let* cloudTranslation :=
      translateWithCloudAPI env text sourceLang targetLang in
    if truthy_opt cloudTranslation
       && negb (eqb (default [] cloudTranslation) text)
    then
      let* now := Date_now env in
      ret (Some (cloud_response (default [] cloudTranslation) (now - startTime)))
    else ret None
  else ret None.

(** [POST], for a body whose three fields are strings or absent, as the
    hook sends them. *)
Definition POST (env : Env) (req : parsed Route.TranslateRequest)
  : M World Route.Response :=
  try_catch
    (let* parsed_body := json req in
     let* body := of_object parsed_body in
     if falsy_opt (Route.text body) || falsy_opt (Route.sourceLang body)
        || falsy_opt (Route.targetLang body)
     then ret Route.MISSING_FIELDS
     else
       let text := default [] (Route.text body) in
       let sourceLang := default [] (Route.sourceLang body) in
       let targetLang := default [] (Route.targetLang body) in
       let* served := try_service env text sourceLang targetLang in
       match served with
       | Some response => ret response
       | None =>
           let* cloud := try_cloud env text sourceLang targetLang in
           match cloud with
           | Some response => ret response
           | None =>
               let fallbackText :=
                 getFallbackTranslation text sourceLang targetLang in
               ret (fallback_response fallbackText)
           end
       end)
    (λ _, ret Route.SERVICE_ERROR).

(** What the hook receives when this route serves [/api/translate]. *)
Definition server (env : Env) (request : Route.TranslateRequest)
  : fetched Route.Payload :=
  match POST env (JsonObject request) fresh with
  | (Return response, _) =>
      Responds (Route.status response) (JsonObject (Route.payload response))
  | (Throw _, _) => Rejects
  end.

Definition is_Service (c : Call) : bool :=
  match c with CallService _ => true | CallCloud _ => false end.

(** A request went to the IndicTrans2 service. *)
Definition service_attempted (w : World) : Prop :=
  ∃ c, c ∈ calls w ∧ is_Service c = true.

(** The IndicTrans2 service and MyMemory are both out of reach, and the
    environment variable is not set. *)
Definition nothing_configured : Env :=
  {| TRANSLATION_SERVICE_URL_var := None;
     indictrans := λ _, Rejects;
     mymemory := λ _, Rejects;
     clock := λ n, Z.of_nat n |}.

(** The service URL is a local one; MyMemory answers with the text it was
    sent. *)
Definition parroting : Env :=
  {| TRANSLATION_SERVICE_URL_var := Some (lit "http://localhost:5000");
     indictrans := λ _, Rejects;
     mymemory := λ query,
       Responds 200 (JsonObject {| Route.responseStatus := Some 200%Z;
                                   Route.responseData_translatedText :=
                                     Some (Route.mm_q query) |});
     clock := λ n, Z.of_nat n |}.

End CloudRoute.

(** ** Starting a monitor: the [POST] of the alerts proxy and the settings
       of [CrisisPredictor] *)

Module Monitor.
Import JS Eff.
Local Open Scope eff_scope.

(** *** [POST] of [/api/alerts] *)

(** The value of [interval_seconds] in a parsed body.  The proxy tests
    whether it is truthy and passes it on as it is; it never computes with
    it, so that an integer stands for itself whether or not a double holds
    it exactly. *)
Inductive interval : Type :=
| Seconds (n : Z)       (* a number whose value is an integer: the page
                           sends 300 *)
| Other (is_truthy : bool) (written : jsstring).
                        (* any other JSON value (a fraction, a number
                           beyond the range of doubles, which is parsed as
                           [Infinity], a string, ...): whether it is truthy,
                           and what [JSON.stringify] writes for it ([null]
                           for [Infinity]) *)

Definition truthy_interval (v : interval) : bool :=
  match v with
  | Seconds n => negb (n =? 0)%Z
  | Other is_truthy _ => is_truthy
  end.

(** What the proxy reads of the body of a request: [keywords] when it is an
    array (of strings, as the page sends them), and [interval_seconds]. *)
Record Body := {
  client : option jsstring;
  keywords : option (list jsstring);
  interval_seconds : option interval;
}.

(** What the proxy sends to [/start-monitor]: the object that is written as
    the body, and the header [x-api-key] when a key is configured. *)
Record Forwarded := {
  f_keywords : list jsstring;
  f_interval_seconds : interval;
  f_api_key : option jsstring;
}.

Section WithData.

(** The JSON body of an answer of the monitoring service, which the proxy
    passes on as it is. *)
Context {Data : Type}.

Inductive Reply : Type :=
| ErrorReply (error : jsstring)
| DataReply (data : option Data).      (* [None] is the JSON value [null] *)

Record Response := {
  status : Z;
  reply : Reply;
}.

Record Env := {
  OBSEI_API_KEY : option jsstring;            (* process.env *)
  start_monitor : Forwarded → fetched Data;   (* the monitoring service *)
  message_of : exn → option jsstring;         (* [err?.message] *)
}.

(** [interval_seconds || 300] *)
Definition interval_or_default (given : option interval) : interval :=
  match given with
  | Some v => if truthy_interval v then v else Seconds 300
  | None => Seconds 300
  end.

(** The state threaded through one request: what was sent upstream. *)
Definition POST (env : Env) (req : parsed Body) : M (list Forwarded) Response :=
  try_catch
    (let* parsed_body := json req in
     let* body := of_object parsed_body in
     match keywords body with
     | None | Some [] =>
         ret {| status := 400;
                reply := ErrorReply (lit "Keywords array is required") |}
     | Some kws =>
         let forwarded :=
           {| f_keywords := kws;
              f_interval_seconds := interval_or_default (interval_seconds body);
              f_api_key := if truthy_opt (OBSEI_API_KEY env)
                           then OBSEI_API_KEY env else None |} in
         let* _ := modify (λ sent, sent ++ [forwarded]) in
         let* res :=
           match start_monitor env forwarded with
           | Rejects => throw FetchError
           | Responds status body => ret (status, body)
           end in
         if negb (ok res.1)
         then
           let* _ := read_text res.2 in       (* for the log *)
           ret {| status := 502;
                  reply := ErrorReply (lit "Failed to start monitor") |}
         else
           let* data := json res.2 in
           ret {| status := 200; reply := DataReply data |}
     end)
    (λ err, ret {| status := 500;
                   reply := ErrorReply (or_else (message_of env err)
                                                (lit "Internal error")) |}).

(** *** The settings of [CrisisPredictor] *)

Record Settings := {
  monitorKeywords : list jsstring;
  newKeyword : jsstring;
  savedClients : list jsstring;
  newClient : jsstring;
  monitorClient : jsstring;
  isStartingMonitor : bool;
  showMonitorSettings : bool;
  alerted : list jsstring;          (* the messages passed to [alert] *)
}.

(** [useState] of the component; the settings are closed. *)
Definition initial : Settings :=
  {| monitorKeywords := [lit "product issue"; lit "customer complaint";
                         lit "service outage"];
     newKeyword := [];
     savedClients := [];
     newClient := [];
     monitorClient := [];
     isStartingMonitor := false;
     showMonitorSettings := false;
     alerted := [] |}.

Definition setMonitorKeywords (v : list jsstring) (st : Settings) : Settings :=
  {| monitorKeywords := v; newKeyword := newKeyword st;
     savedClients := savedClients st; newClient := newClient st;
     monitorClient := monitorClient st;
     isStartingMonitor := isStartingMonitor st;
     showMonitorSettings := showMonitorSettings st; alerted := alerted st |}.

Definition setNewKeyword (v : jsstring) (st : Settings) : Settings :=
  {| monitorKeywords := monitorKeywords st; newKeyword := v;
     savedClients := savedClients st; newClient := newClient st;
     monitorClient := monitorClient st;
     isStartingMonitor := isStartingMonitor st;
     showMonitorSettings := showMonitorSettings st; alerted := alerted st |}.

Definition setSavedClients (v : list jsstring) (st : Settings) : Settings :=
  {| monitorKeywords := monitorKeywords st; newKeyword := newKeyword st;
     savedClients := v; newClient := newClient st;
     monitorClient := monitorClient st;
     isStartingMonitor := isStartingMonitor st;
     showMonitorSettings := showMonitorSettings st; alerted := alerted st |}.

Definition setNewClient (v : jsstring) (st : Settings) : Settings :=
  {| monitorKeywords := monitorKeywords st; newKeyword := newKeyword st;
     savedClients := savedClients st; newClient := v;
     monitorClient := monitorClient st;
     isStartingMonitor := isStartingMonitor st;
     showMonitorSettings := showMonitorSettings st; alerted := alerted st |}.

Definition setMonitorClient (v : jsstring) (st : Settings) : Settings :=
  {| monitorKeywords := monitorKeywords st; newKeyword := newKeyword st;
     savedClients := savedClients st; newClient := newClient st;
     monitorClient := v;
     isStartingMonitor := isStartingMonitor st;
     showMonitorSettings := showMonitorSettings st; alerted := alerted st |}.

Definition setIsStartingMonitor (v : bool) (st : Settings) : Settings :=
  {| monitorKeywords := monitorKeywords st; newKeyword := newKeyword st;
     savedClients := savedClients st; newClient := newClient st;
     monitorClient := monitorClient st;
     isStartingMonitor := v;
     showMonitorSettings := showMonitorSettings st; alerted := alerted st |}.

Definition setShowMonitorSettings (v : bool) (st : Settings) : Settings :=
  {| monitorKeywords := monitorKeywords st; newKeyword := newKeyword st;
     savedClients := savedClients st; newClient := newClient st;
     monitorClient := monitorClient st;
     isStartingMonitor := isStartingMonitor st;
     showMonitorSettings := v; alerted := alerted st |}.

Definition alert (message : jsstring) (st : Settings) : Settings :=
  {| monitorKeywords := monitorKeywords st; newKeyword := newKeyword st;
     savedClients := savedClients st; newClient := newClient st;
     monitorClient := monitorClient st;
     isStartingMonitor := isStartingMonitor st;
     showMonitorSettings := showMonitorSettings st;
     alerted := alerted st ++ [message] |}.

(** [list.includes(x)] *)
Definition has (x : jsstring) (l : list jsstring) : bool := bool_decide (x ∈ l).

(** [list.filter(k => k !== x)] *)
Definition without (x : jsstring) (l : list jsstring) : list jsstring :=
  filter (λ k, k ≠ x) l.

Definition handleAddKeyword (st : Settings) : Settings :=
  if truthy (trim (newKeyword st))
     && negb (has (trim (newKeyword st)) (monitorKeywords st))
  then setNewKeyword []
         (setMonitorKeywords (monitorKeywords st ++ [trim (newKeyword st)]) st)
  else st.

Definition handleRemoveKeyword (keyword : jsstring) (st : Settings) : Settings :=
  setMonitorKeywords (without keyword (monitorKeywords st)) st.

Definition handleAddClient (st : Settings) : Settings :=
  if truthy (trim (newClient st))
     && negb (has (trim (newClient st)) (savedClients st))
  then
    let addedClient := trim (newClient st) in
    setNewClient []
      (setMonitorClient addedClient
         (setSavedClients (savedClients st ++ [addedClient]) st))
  else st.

Definition handleRemoveClient (client : jsstring) (st : Settings) : Settings :=
  let st' := setSavedClients (without client (savedClients st)) st in
  if eqb (monitorClient st) client then setMonitorClient [] st' else st'.

(** *** [handleStartMonitor] *)

Definition CROSS : jsstring := [10060]%N.      (* U+274C *)
Definition TICK : jsstring := [9989]%N.        (* U+2705 *)

(** [handleStartMonitor] up to its [await fetch(...)]: either it has
    returned, or the request is under way, with the client and the keywords
    of this render. *)
Inductive started : Type :=
| Returned (st : Settings)
| Awaiting (request : Body) (st : Settings).

Definition handleStartMonitor_start (st : Settings) : started :=
  let st := setIsStartingMonitor true st in
  if falsy (trim (monitorClient st)) then
    (* the [return] inside [try], then [finally] *)
    Returned (setIsStartingMonitor false
                (setIsStartingMonitor false
                   (alert (CROSS ++ lit " Please select or enter a client name") st)))
  else
    Awaiting {| client := Some (monitorClient st);
                keywords := Some (monitorKeywords st);
                interval_seconds := Some (Seconds 300) |} st.

(** [handleStartMonitor] from the moment the [fetch] settles; [request] is
    what was sent, and [error_message err] is [err.message] when [err] is
    an [Error]. *)
Definition handleStartMonitor_resume (error_message : exn → option jsstring)
    (request : Body) (outcome : fetched Data) : M Settings unit :=
  try_finally
    (try_catch
       (let* res :=
          match outcome with
          | Rejects => throw FetchError
          | Responds status body => ret (status, body)
          end in
        if ok res.1 then
          let* _ := modify
            (alert (TICK ++ lit " Monitor started for "
                    ++ default [] (client request) ++ lit " with keywords: "
                    ++ join (lit ", ") (default [] (keywords request)))) in
          modify (setShowMonitorSettings false)
        else modify (alert (CROSS ++ lit " Failed to start monitor")))
       (λ err, modify (alert (CROSS ++ lit " Error: "
                              ++ default (lit "Unknown error")
                                         (error_message err)))))
    (setIsStartingMonitor false).

End WithData.

Arguments Reply : clear implicits.
Arguments Response : clear implicits.
Arguments Env : clear implicits.

(** What the browser receives from the proxy for a request. *)
Definition proxy {Data} (env : Env Data) (request : Body)
  : fetched (Reply Data) * list Forwarded :=
  match POST env (JsonObject request) [] with
  | (Return response, sent) =>
      (Responds (status response) (JsonObject (reply response)), sent)
  | (Throw _, sent) => (Rejects, sent)
  end.

(** One whole click on the button that starts the monitor, against a
    server that answers [server request]: the settings after it, and the
    request when one was sent. *)
Definition handleStartMonitor {Data} (error_message : exn → option jsstring)
    (server : Body → fetched Data) (st : Settings) : Settings * list Body :=
  match handleStartMonitor_start st with
  | Returned st' => (st', [])
  | Awaiting request st' =>
      ((handleStartMonitor_resume error_message request (server request) st').2,
       [request])
  end.

(** The button is [disabled] while a start is under way and while there is
    no keyword. *)
Definition start_disabled (st : Settings) : bool :=
  isStartingMonitor st || (length (monitorKeywords st) =? 0)%nat.

(** *** The transitions of the settings *)

Inductive Event : Type :=
| TypeKeyword (text : jsstring)       (* the input of the new keyword *)
| AddKeyword
| RemoveKeyword (keyword : jsstring)
| TypeClient (text : jsstring)        (* the input of the new client *)
| AddClient
| RemoveClient (client : jsstring)
| ClickClient (position : nat).       (* a click on a saved client *)

Definition step (st : Settings) (ev : Event) : Settings :=
  match ev with
  | TypeKeyword text => setNewKeyword text st
  | AddKeyword => handleAddKeyword st
  | RemoveKeyword keyword => handleRemoveKeyword keyword st
  | TypeClient text => setNewClient text st
  | AddClient => handleAddClient st
  | RemoveClient client => handleRemoveClient client st
  | ClickClient position =>
      match savedClients st !! position with
      | Some client => setMonitorClient client st
      | None => st
      end
  end.

(** What the handlers keep: no keyword and no client is listed twice, each
    is trimmed and not empty, and the selected client is one of the saved
    clients, or none. *)
Definition tidy (l : list jsstring) : Prop :=
  NoDup l ∧ ∀ k, k ∈ l → trim k = k ∧ k ≠ [].

Definition consistent (st : Settings) : Prop :=
  tidy (monitorKeywords st) ∧ tidy (savedClients st)
  ∧ (monitorClient st = [] ∨ monitorClient st ∈ savedClients st).

(** A monitoring service that accepts everything. *)
Definition accepting : Env unit :=
  {| OBSEI_API_KEY := Some (lit "secret");
     start_monitor := λ _, Responds 200 (JsonObject tt);
     message_of := λ _, None |}.

End Monitor.

(** ** The language picker of [RegionalNarrative] *)

Module Picker.
Import JS Narrative.

Definition regions : list (jsstring * list jsstring) :=
  [ (lit "North India", [lit "hi"; lit "pa"; lit "ur"; lit "ne"]);
    (lit "South India", [lit "ta"; lit "te"; lit "kn"; lit "ml"]);
    (lit "East India", [lit "bn"; lit "or"; lit "as"]);
    (lit "West India", [lit "mr"; lit "gu"]);
    (lit "North East India", [lit "as"; lit "mni"]) ].

(** The languages offered for the selected region: those of
    [supportedLanguages] whose code the region lists. *)
Definition availableLanguages (selectedRegion : jsstring)
  : list (jsstring * jsstring) :=
  if truthy selectedRegion then
    filter (λ lang : jsstring * jsstring,
              match find (λ r, eqb (fst r) selectedRegion) regions with
              | Some r => bool_decide (fst lang ∈ snd r)
              | None => false          (* [undefined] *)
              end = true)
           supportedLanguages
  else [].

End Picker.

(* ===================================================================== *)
(** * Part II: properties *)
(* ===================================================================== *)

(** ** Strings and control flow *)

Module JSFacts.
Import JS.

Lemma eqb_eq (a b : jsstring) : eqb a b = true ↔ a = b.
Proof. unfold eqb. apply bool_decide_eq_true. Qed.

Lemma eqb_neq (a b : jsstring) : eqb a b = false ↔ a ≠ b.
Proof. unfold eqb. apply bool_decide_eq_false. Qed.

Lemma eqb_refl (a : jsstring) : eqb a a = true.
Proof. by apply eqb_eq. Qed.

Lemma falsy_nil (s : jsstring) : falsy s = true ↔ s = [].
Proof. destruct s; simpl; split; congruence. Qed.

Lemma falsy_false (s : jsstring) : falsy s = false ↔ s ≠ [].
Proof. destruct s; simpl; split; congruence. Qed.

Lemma truthy_true (s : jsstring) : truthy s = true ↔ s ≠ [].
Proof. unfold truthy. rewrite negb_true_iff. apply falsy_false. Qed.

Lemma falsy_opt_Some (s : jsstring) : s ≠ [] → falsy_opt (Some s) = false.
Proof. intros. simpl. by apply falsy_false. Qed.

Lemma truthy_opt_spec (v : option jsstring) :
  truthy_opt v = true ↔ ∃ s, v = Some s ∧ s ≠ [].
Proof.
  unfold truthy_opt. rewrite negb_true_iff. destruct v as [s|]; simpl.
  - rewrite falsy_false. split; [eauto | by intros (? & [= ->] & ?)].
  - split; [done | by intros (? & ? & ?)].
Qed.

Lemma truthy_opt_false (v : option jsstring) :
  truthy_opt v = false ↔ v = None ∨ v = Some [].
Proof.
  unfold truthy_opt. rewrite negb_false_iff. destruct v as [s|]; simpl.
  - rewrite falsy_nil. split; [intros ->; by right | by intros [|[= ->]]].
  - split; [by left | done].
Qed.

Lemma ok_range (status : Z) : ok status = true ↔ (200 ≤ status ≤ 299)%Z.
Proof. unfold ok. rewrite andb_true_iff, !Z.leb_le. done. Qed.

Lemma slice0_slice0 (n : Z) (s : jsstring) :
  slice0 n (slice0 n s) = slice0 n s.
Proof. unfold slice0. by rewrite take_take, Nat.min_id. Qed.

Lemma slice0_len (n : Z) (s : jsstring) :
  (0 ≤ n < len s)%Z → len (slice0 n s) = n.
Proof. unfold slice0, len. rewrite length_take. lia. Qed.

Lemma gtb_gt (n m : Z) : (n >? m)%Z = true ↔ (m < n)%Z.
Proof. rewrite Z.gtb_ltb. apply Z.ltb_lt. Qed.

End JSFacts.

Module EffTactics.
Import Eff.

(** Unfolds the combinators of [Eff], and [Route.fetch], so that a monadic
    definition becomes nested matches on its steps. *)
Ltac eff :=
  unfold bind, ret, throw, try_catch, try_finally, modify, get, json,
         of_object, Route.fetch in *;
  cbn beta iota in *.

End EffTactics.

(** ** The translate route *)

Module RouteFacts.
Import JS Eff Route Observe JSFacts EffTactics.

Local Opaque LANGUAGE_NAMES GOOGLE_LANGUAGE_CODES GOOGLE_TRUNCATION_NOTE
  MYMEMORY_TRUNCATION_NOTE lit slice0 Z.gtb.

(** *** The two providers *)

(** The result of the primary provider does not depend on what was sent
    before, and the provider only appends to the trace. *)
Lemma google_frame env text src tgt w :
  translateWithGoogleAPI env text src tgt w =
  let r := translateWithGoogleAPI env text src tgt fresh in
  (r.1, {| calls := calls w ++ calls r.2; clock_reads := clock_reads w |}).
Proof.
  destruct w as [cs n]. unfold translateWithGoogleAPI, fresh. eff.
  destruct (falsy_opt (GOOGLE_TRANSLATE_API_KEY env));
    [by rewrite app_nil_r|].
  destruct (falsy_property _ || falsy_property _); [by rewrite app_nil_r|].
  unfold send; simpl.
  destruct (google env _) as [|st body]; simpl; [done|].
  destruct (negb (ok st)); [by destruct body|].
  destruct body as [| |data|]; simpl; try done.
  destruct (error data); [done|].
  destruct (translations data) as [[|e es]|]; try done.
  destruct (falsy _); [done|].
  by destruct (len text >? 4500)%Z.
Qed.

Lemma mymemory_frame env text src tgt w :
  translateWithMyMemory env text src tgt w =
  let r := translateWithMyMemory env text src tgt fresh in
  (r.1, {| calls := calls w ++ calls r.2; clock_reads := clock_reads w |}).
Proof.
  destruct w as [cs n]. unfold translateWithMyMemory, fresh. eff.
  destruct (negb (well_formed _)); simpl; [by rewrite app_nil_r|].
  unfold send; simpl.
  destruct (mymemory env _) as [|st body]; simpl; [done|].
  destruct (negb (ok st)); [done|].
  destruct body as [| |data|]; simpl; try done.
  destruct (bool_decide _ && truthy_opt _); [|done].
  by destruct (len text >? 500)%Z.
Qed.

(** The secondary provider never throws: its [try] covers its body. *)
Lemma mymemory_returns env text src tgt w :
  ∃ r, (translateWithMyMemory env text src tgt w).1 = Return r.
Proof.
  unfold translateWithMyMemory. eff.
  destruct (negb (well_formed _)); simpl; [eauto|].
  destruct (mymemory env _) as [|st body]; simpl; [eauto|].
  destruct (negb (ok st)); [eauto|].
  destruct body as [| |data|]; simpl; eauto.
  destruct (bool_decide _ && truthy_opt _); [|eauto].
  destruct (len text >? 500)%Z; eauto.
Qed.

(** A translation that the primary provider returns is never empty. *)
Lemma google_result_truthy env text src tgt w r :
  (translateWithGoogleAPI env text src tgt w).1 = Return (Some r) → r ≠ [].
Proof.
  unfold translateWithGoogleAPI. eff.
  destruct (falsy_opt (GOOGLE_TRANSLATE_API_KEY env)); [done|].
  destruct (falsy_property _ || falsy_property _); [done|].
  destruct (google env _) as [|st body]; simpl; [done|].
  destruct (negb (ok st)); [by destruct body|].
  destruct body as [| |data|]; simpl; try done.
  destruct (error data); [done|].
  destruct (translations data) as [[|e es]|]; try done.
  destruct (falsy _) eqn:Hne; [done|].
  apply falsy_false in Hne.
  destruct (len text >? 4500)%Z; intros [= <-]; [|done].
  intros Hnil. apply app_eq_nil in Hnil as [? _]. done.
Qed.

(** What the primary provider sends: nothing, or one request to Google
    that carries the text cut at the limit. *)
Lemma google_calls_shape env text src tgt :
  let sent := calls (translateWithGoogleAPI env text src tgt fresh).2 in
  sent = [] ∨
  ∃ gs gt, sent = [CallGoogle {| q := if (len text >? 4500)%Z
                                      then slice0 4500 text else text;
                                 source := gs; target := gt |}].
Proof.
  unfold translateWithGoogleAPI, fresh. eff.
  destruct (falsy_opt (GOOGLE_TRANSLATE_API_KEY env)); [by left|].
  destruct (falsy_property _ || falsy_property _); [by left|].
  right. eexists _, _. unfold send; simpl.
  destruct (google env _) as [|st body]; simpl; [done|].
  destruct (negb (ok st)); [by destruct body|].
  destruct body as [| |data|]; simpl; try done.
  destruct (error data); [done|].
  destruct (translations data) as [[|e es]|]; try done.
  destruct (falsy _); [done|].
  by destruct (len text >? 4500)%Z.
Qed.

(** What the secondary provider sends: nothing, or one request to
    MyMemory that carries the text cut at the limit. *)
Lemma mymemory_calls_shape env text src tgt :
  let sent := calls (translateWithMyMemory env text src tgt fresh).2 in
  sent = [] ∨
  sent = [CallMyMemory {| mm_q := if (len text >? 500)%Z
                                  then slice0 500 text else text;
                          langpair := (src, tgt) |}].
Proof.
  unfold translateWithMyMemory, fresh. eff.
  destruct (negb (well_formed _)); simpl; [by left|].
  right. unfold send; simpl.
  destruct (mymemory env _) as [|st body]; simpl; [done|].
  destruct (negb (ok st)); [done|].
  destruct body as [| |data|]; simpl; try done.
  destruct (bool_decide _ && truthy_opt _); [|done].
  by destruct (len text >? 500)%Z.
Qed.

Lemma google_never_asks_mymemory env text src tgt w :
  ¬ secondary_attempted w →
  ¬ secondary_attempted (translateWithGoogleAPI env text src tgt w).2.
Proof.
  intros Hw (c & Hc & Hm). apply Hw. exists c. split; [|done].
  rewrite google_frame in Hc. simpl in Hc.
  apply elem_of_app in Hc as [Hc|Hc]; [done|].
  destruct (google_calls_shape env text src tgt) as [E|(gs & gt & E)];
    simpl in E; rewrite E in Hc.
  - by apply elem_of_nil in Hc.
  - apply list_elem_of_singleton in Hc. by subst c.
Qed.

(** *** The shape of [POST] *)

(** A request whose fields are present and whose codes differ is served by
    the chain: Google, then MyMemory if eligible, then the degraded
    answer; an exception on the way ends in the [catch] of [POST]. *)
Lemma POST_chain env text src tgt w :
  reaches_providers text src tgt →
  POST env (request text src tgt) w =
  match translateWithGoogleAPI env text src tgt (tick w) with
  | (Throw _, w1) => (Return SERVICE_ERROR, w1)
  | (Return g, w1) =>
      if truthy_opt g then
        (Return (google_response (default [] g)
                   (clock env (clock_reads w1) - clock env (clock_reads w))),
         tick w1)
      else if eqb src (lit "en") && in_LANGUAGE_NAMES tgt then
        match translateWithMyMemory env text src tgt (tick w1) with
        | (Return c, w2) =>
            if truthy_opt c then
              (Return (cloud_fallback_response (default [] c)
                         (clock env (clock_reads w2) - clock env (clock_reads w1))),
               tick w2)
            else (Return (degraded_response text tgt), w2)
        | (Throw _, w2) => (Return SERVICE_ERROR, w2)
        end
      else (Return (degraded_response text tgt), w1)
  end.
Proof.
  intros (Ht & Hs & Hg & Hne).
  unfold POST, request, Date_now, tick. eff. simpl.
  apply falsy_false in Ht, Hs, Hg. rewrite Ht, Hs, Hg. simpl.
  apply eqb_neq in Hne. rewrite Hne.
  destruct (translateWithGoogleAPI env text src tgt _) as [[g|e] w1]; [|done].
  destruct (truthy_opt g); [done|].
  destruct (eqb src (lit "en") && in_LANGUAGE_NAMES tgt); [|done].
  destruct (translateWithMyMemory env text src tgt _) as [[c|e] w2]; [|done].
  by destruct (truthy_opt c).
Qed.

(** A request that does not reach the providers is answered at once and
    leaves the world as it is. *)
Lemma POST_without_providers env text src tgt w :
  ¬ reaches_providers text src tgt →
  ∃ r, POST env (request text src tgt) w = (Return r, w).
Proof.
  intros Hn. unfold POST, request. eff. simpl.
  destruct (falsy text || falsy src || falsy tgt) eqn:Hf; [eauto|].
  destruct (eqb src tgt) eqn:He; [eauto|].
  exfalso. apply Hn.
  apply orb_false_iff in Hf as [Hf Hg]. apply orb_false_iff in Hf as [Ht Hs].
  apply falsy_false in Ht, Hs, Hg. apply eqb_neq in He. done.
Qed.

Lemma primary_result_eq env text src tgt w :
  (translateWithGoogleAPI env text src tgt w).1 = primary_result env text src tgt.
Proof. by rewrite google_frame. Qed.

Lemma secondary_result_eq env text src tgt w :
  (translateWithMyMemory env text src tgt w).1 = secondary_result env text src tgt.
Proof. by rewrite mymemory_frame. Qed.

(** The degraded answer, when both providers return nothing or the
    secondary one is not eligible. *)
Lemma POST_degraded env text src tgt :
  reaches_providers text src tgt →
  primary_failed env text src tgt →
  (src = lit "en" → in_LANGUAGE_NAMES tgt = true →
   ∃ c, secondary_result env text src tgt = Return c ∧ truthy_opt c = false) →
  (POST env (request text src tgt) fresh).1 = Return (degraded_response text tgt).
Proof.
  intros Hr Hp Hs. rewrite POST_chain by done.
  pose proof (primary_result_eq env text src tgt (tick fresh)) as E.
  rewrite Hp in E.
  destruct (translateWithGoogleAPI env text src tgt _) as [c1 w1].
  simpl in E; subst c1. simpl.
  destruct (eqb src (lit "en") && in_LANGUAGE_NAMES tgt) eqn:Hel; [|done].
  apply andb_true_iff in Hel as [He Hin]. apply eqb_eq in He.
  destruct (Hs He Hin) as (c & Hc & Hf).
  pose proof (secondary_result_eq env text src tgt (tick w1)) as E2.
  rewrite Hc in E2.
  destruct (translateWithMyMemory env text src tgt _) as [c2 w2].
  simpl in E2; subst c2. by rewrite Hf.
Qed.

(** *** The no-op short circuit *)

(** C4, as the code has it.  For every non-empty text and every non-empty
    language code, a request whose source and target are that same code is
    answered at once with status 200, [translatedText] equal to the text,
    [source] equal to ["noop"] and [timeMs] equal to 0; no provider is
    contacted and the clock is not read (the world is unchanged). *)
Theorem noop_short_circuit env (text lang : jsstring) w :
  text ≠ [] → lang ≠ [] →
  ∃ r, POST env (request text lang lang) w = (Return r, w)
       ∧ status r = 200%Z
       ∧ translatedText (payload r) = Some text
       ∧ p_source (payload r) = Some (lit "noop")
       ∧ timeMs (payload r) = Some 0%Z
       ∧ isFallback (payload r) = None
       ∧ note (payload r) = None.
Proof.
  intros Ht Hl. exists (noop_response text).
  unfold POST, request. eff. simpl.
  apply falsy_false in Ht, Hl. rewrite Ht, Hl. simpl.
  by rewrite eqb_refl.
Qed.

Lemma noop_short_circuit_witness :
  ∃ r, POST Scenario.offline (request Scenario.hello (lit "en") (lit "en")) fresh
       = (Return r, fresh)
       ∧ status r = 200%Z
       ∧ translatedText (payload r) = Some Scenario.hello
       ∧ p_source (payload r) = Some (lit "noop")
       ∧ timeMs (payload r) = Some 0%Z
       ∧ isFallback (payload r) = None
       ∧ note (payload r) = None.
Proof.
  apply (noop_short_circuit Scenario.offline Scenario.hello (lit "en") fresh);
    vm_compute; discriminate.
Defined.

(** C4, as the specification words it, fails for the empty text: with
    equal codes the route answers 400 "Missing required fields", not the
    no-op answer. *)
Lemma empty_text_is_not_short_circuited :
  let answer := POST Scenario.offline (request [] (lit "en") (lit "en")) fresh in
  answer = (Return MISSING_FIELDS, fresh)
  ∧ status MISSING_FIELDS = 400%Z
  ∧ translatedText (payload MISSING_FIELDS) = None
  ∧ answer.1 ≠ Return (noop_response []).
Proof. vm_compute. repeat split; discriminate. Qed.

(** *** The degraded answer *)

(** When both providers return nothing, or the secondary one is not
    eligible, the answer is the original text with [isFallback], source
    ["none"], status 503 and one note that names the target language; the
    text itself carries no note, and asking again with the text of the
    answer gives the same answer. *)
Lemma degraded_answer env text src tgt :
  reaches_providers text src tgt →
  primary_failed env text src tgt →
  (src = lit "en" → in_LANGUAGE_NAMES tgt = true →
   ∃ c, secondary_result env text src tgt = Return c ∧ truthy_opt c = false) →
  ∃ r, (POST env (request text src tgt) fresh).1 = Return r
       ∧ status r = 503%Z
       ∧ translatedText (payload r) = Some text
       ∧ isFallback (payload r) = Some true
       ∧ p_source (payload r) = Some (lit "none")
       ∧ note (payload r) =
           Some (lit "Translation unavailable for "
                 ++ property_or (lookup_property LANGUAGE_NAMES tgt) tgt
                 ++ lit ". Returned original text.")
       ∧ (POST env (request (default [] (translatedText (payload r))) src tgt)
               fresh).1 = Return r.
Proof.
  intros Hr Hp Hs. exists (degraded_response text tgt).
  pose proof (POST_degraded env text src tgt Hr Hp Hs) as E.
  repeat split; done.
Qed.

(** A rejected request to Google is not a soft failure: the exception
    leaves [translateWithGoogleAPI], the fallback is skipped and the
    [catch] of [POST] answers 500. *)
Lemma google_rejection_skips_fallback env text src tgt key gs gt :
  reaches_providers text src tgt →
  GOOGLE_TRANSLATE_API_KEY env = Some key → key ≠ [] →
  GOOGLE_LANGUAGE_CODES !! src = Some gs → gs ≠ [] →
  GOOGLE_LANGUAGE_CODES !! tgt = Some gt → gt ≠ [] →
  google env {| q := if (len text >? 4500)%Z then slice0 4500 text else text;
                source := Own gs; target := Own gt |} = Rejects →
  (POST env (request text src tgt) fresh).1 = Return SERVICE_ERROR
  ∧ ¬ secondary_attempted (POST env (request text src tgt) fresh).2.
Proof.
  intros Hr Hk Hkne Hgs Hgsne Hgt Hgtne Hrej.
  rewrite POST_chain by done.
  unfold translateWithGoogleAPI, tick, fresh, lookup_property, falsy_property. eff.
  rewrite Hk, Hgs, Hgt. simpl.
  apply truthy_true in Hgsne, Hgtne. apply falsy_false in Hkne.
  rewrite Hkne, Hgsne, Hgtne. simpl.
  simpl in Hrej. rewrite Hrej. simpl. split; [done|].
  intros (c & Hc & Hm). apply list_elem_of_singleton in Hc. by subst c.
Qed.

(** C3 at its failing input.  An API key is configured and neither
    provider can be reached; the request is ["Hello world"], English to
    Hindi.  The answer is the 500 of the [catch] of [POST], whose
    [translatedText] is not the input text, without [isFallback], [source]
    or [note]; only Google was asked, MyMemory was not tried. *)
Theorem unreachable_providers_answer_500 :
  POST Scenario.unreachable (request Scenario.hello (lit "en") (lit "hi")) fresh
  = (Return SERVICE_ERROR,
     {| calls := [CallGoogle {| q := Scenario.hello; source := Own (lit "en");
                                target := Own (lit "hi") |}];
        clock_reads := 1 |})
  ∧ status SERVICE_ERROR = 500%Z
  ∧ translatedText (payload SERVICE_ERROR)
    = Some (lit "Translation service error. Please try again.")
  ∧ translatedText (payload SERVICE_ERROR) ≠ Some Scenario.hello
  ∧ isFallback (payload SERVICE_ERROR) = None
  ∧ p_source (payload SERVICE_ERROR) = None
  ∧ note (payload SERVICE_ERROR) = None.
Proof. vm_compute. repeat split; discriminate. Qed.

(** *** The gate of the secondary provider *)

(** The gate as the code has it.  A request goes to MyMemory only if
    Google was asked and returned no translation, the source code is
    ["en"] and the target code passes the test [in LANGUAGE_NAMES], which
    holds of the keys of the table and of the names inherited from
    [Object.prototype]; and when Google returned no translation for any
    other pair of codes, the answer is the degraded one and MyMemory is not
    contacted. *)
Lemma secondary_gate env text src tgt :
  let answer := POST env (request text src tgt) fresh in
  (secondary_attempted answer.2 →
   reaches_providers text src tgt ∧ primary_failed env text src tgt
   ∧ src = lit "en" ∧ in_LANGUAGE_NAMES tgt = true)
  ∧ (reaches_providers text src tgt → primary_failed env text src tgt →
     ¬ (src = lit "en" ∧ in_LANGUAGE_NAMES tgt = true) →
     answer.1 = Return (degraded_response text tgt)
     ∧ ¬ secondary_attempted answer.2).
Proof.
  assert (Hfresh : ¬ secondary_attempted (tick fresh)).
  { intros (c & Hc & _). by apply elem_of_nil in Hc. }
  simpl. split.
  - intros Hatt.
    destruct (decide (reaches_providers text src tgt)) as [Hr|Hn]; last first.
    { destruct (POST_without_providers env text src tgt fresh Hn) as (r & E).
      rewrite E in Hatt. destruct Hatt as (c & Hc & _).
      by apply elem_of_nil in Hc. }
    split; [done|]. revert Hatt. rewrite POST_chain by done.
    pose proof (google_never_asks_mymemory env text src tgt _ Hfresh) as Hg.
    pose proof (primary_result_eq env text src tgt (tick fresh)) as E.
    pose proof (google_result_truthy env text src tgt (tick fresh)) as Hne.
    destruct (translateWithGoogleAPI env text src tgt _) as [[g|e] w1];
      simpl in *; [|done].
    destruct (truthy_opt g) eqn:Hg'; [done|].
    apply truthy_opt_false in Hg' as [-> | ->]; [|by destruct (Hne [])].
    destruct (eqb src (lit "en") && in_LANGUAGE_NAMES tgt) eqn:Hel; [|done].
    apply andb_true_iff in Hel as [He Hin]. apply eqb_eq in He. done.
  - intros Hr Hp Hpair. rewrite POST_chain by done.
    pose proof (google_never_asks_mymemory env text src tgt _ Hfresh) as Hg.
    pose proof (primary_result_eq env text src tgt (tick fresh)) as E.
    rewrite Hp in E.
    destruct (translateWithGoogleAPI env text src tgt _) as [c1 w1].
    simpl in E, Hg; subst c1. simpl.
    destruct (eqb src (lit "en") && in_LANGUAGE_NAMES tgt) eqn:Hel; [|done].
    apply andb_true_iff in Hel as [He Hin]. apply eqb_eq in He.
    by destruct Hpair.
Qed.

Lemma secondary_gate_example :
  (reaches_providers Scenario.hello (lit "en") (lit "hi")
   ∧ primary_failed Scenario.echoing_without_key Scenario.hello (lit "en") (lit "hi")
   ∧ lit "en" = lit "en" ∧ in_LANGUAGE_NAMES (lit "hi") = true)
  ∧ ((POST Scenario.refusing (request Scenario.hello (lit "hi") (lit "bn")) fresh).1
     = Return (degraded_response Scenario.hello (lit "bn"))
     ∧ ¬ secondary_attempted
         (POST Scenario.refusing (request Scenario.hello (lit "hi") (lit "bn")) fresh).2).
Proof.
  split.
  - apply (secondary_gate
             Scenario.echoing_without_key Scenario.hello (lit "en") (lit "hi")).
    exists (CallMyMemory {| mm_q := Scenario.hello;
                            langpair := (lit "en", lit "hi") |}).
    split; [|reflexivity]. vm_compute. apply list_elem_of_here.
  - apply (secondary_gate
             Scenario.refusing Scenario.hello (lit "hi") (lit "bn")).
    + vm_compute. repeat split; discriminate.
    + vm_compute. reflexivity.
    + vm_compute. intros [H _]. discriminate.
Defined.

(** C8 at its failing input.  No API key is configured, so Google returns
    no translation; the request is ["Hello world"], from English to
    ["toString"], which is not a key of [LANGUAGE_NAMES].  The test
    [targetLang in LANGUAGE_NAMES] finds the inherited name all the same:
    the route asks MyMemory, for the pair [en|toString], and answers 200
    with what MyMemory gives, where the supported set would send it to the
    degraded answer without a request. *)
Theorem inherited_name_reaches_secondary :
  LANGUAGE_NAMES !! lit "toString" = None
  ∧ in_LANGUAGE_NAMES (lit "toString") = true
  ∧ primary_failed Scenario.echoing_without_key Scenario.hello
      (lit "en") (lit "toString")
  ∧ POST Scenario.echoing_without_key
      (request Scenario.hello (lit "en") (lit "toString")) fresh
    = (Return (cloud_fallback_response (replicate 11 88%N) 1),
       {| calls := [CallMyMemory {| mm_q := Scenario.hello;
                                    langpair := (lit "en", lit "toString") |}];
          clock_reads := 3 |})
  ∧ status (cloud_fallback_response (replicate 11 88%N) 1) = 200%Z
  ∧ cloud_fallback_response (replicate 11 88%N) 1
    ≠ degraded_response Scenario.hello (lit "toString").
Proof. vm_compute. repeat split; discriminate. Qed.

(** *** Truncation *)



End RouteFacts.

(** ** The hook *)

Module HookFacts.
Import JS Eff JSFacts EffTactics.
Import Hook.

Local Opaque lit Route.LANGUAGE_NAMES Route.unavailable_note.

Import Observe.

(** After the [await]: every path ends in [return], and the [finally]
    clears the busy flag. *)
Lemma translate_resume_returns text outcome st :
  ∃ v, translate_resume text outcome st
       = (Return v, {| isTranslating := false;
                       error := error (translate_resume text outcome st).2;
                       requests := requests st |}).
Proof.
  unfold translate_resume. eff.
  destruct outcome as [|status body]; simpl; [eauto|].
  destruct (negb (ok status)); simpl; [eauto|].
  destruct body as [| |data|]; simpl; eauto.
  destruct (bool_decide _ && bool_decide _); simpl; [eauto|].
  destruct (truthy_opt _); simpl; eauto.
Qed.

Lemma translate_resume_failure text outcome st :
  transport_failure outcome →
  translate_resume text outcome st
  = (Return text, {| isTranslating := false; error := Some FAILED;
                     requests := requests st |}).
Proof.
  unfold translate_resume, transport_failure. eff.
  destruct outcome as [|status body]; simpl; [done|].
  intros [Hok|[->|[->| ->]]].
  - by rewrite Hok.
  - by destruct (negb (ok status)).
  - by destruct (negb (ok status)).
  - by destruct (negb (ok status)).
Qed.

(** A blank text is answered with the empty string, before any flag is set
    and without a request. *)
Lemma translate_blank server text src tgt st :
  trim text = [] → translate server text src tgt st = (Return [], st).
Proof.
  intros Hblank. unfold translate, translate_start.
  apply falsy_nil in Hblank. by rewrite Hblank.
Qed.

(** For any other text the flags are set, the request is sent, and the rest
    is [translate_resume] on the answer. *)
Lemma translate_sends server text src tgt st :
  trim text ≠ [] →
  let request := {| Route.text := Some text; Route.sourceLang := Some src;
                    Route.targetLang := Some tgt |} in
  translate server text src tgt st
  = translate_resume text (server request)
      (send request (setError None (setIsTranslating true st))).
Proof.
  intros Hblank. simpl. unfold translate, translate_start.
  apply falsy_false in Hblank. by rewrite Hblank.
Qed.

(** C7.  [translate] never rejects: whatever the text, the state and the
    answer of the server, it returns a value.  Whenever it has sent its
    request (the text is not blank), the busy flag is [false] at the end,
    whatever the outcome; and on a transport failure (rejected request,
    status outside 2xx, body that is not JSON) it returns the input text
    and sets the error flag.  For a blank text it returns the empty string
    and leaves the state alone. *)
Theorem translate_never_rejects server text src tgt st :
  let r := translate server text src tgt st in
  let request := {| Route.text := Some text; Route.sourceLang := Some src;
                    Route.targetLang := Some tgt |} in
  (∃ v, r.1 = Return v)
  ∧ (trim text = [] → r = (Return [], st))
  ∧ (trim text ≠ [] →
     isTranslating r.2 = false
     ∧ requests r.2 = requests st ++ [request]
     ∧ (transport_failure (server request) →
        r.1 = Return text ∧ error r.2 = Some FAILED)).
Proof.
  simpl. destruct (decide (trim text = [])) as [Hblank|Hblank].
  - rewrite translate_blank by done. split; [by eexists|]. split; done.
  - rewrite translate_sends by done.
    match goal with |- context [translate_resume ?t ?o ?s] =>
      pose proof (translate_resume_failure t o s) as Hfail;
      destruct (translate_resume_returns t o s) as (v & E) end.
    split; [rewrite E; by eexists|]. split; [done|]. intros _.
    split; [by rewrite E|]. split; [by rewrite E|].
    intros Hf. by rewrite (Hfail Hf).
Qed.

Lemma translate_never_rejects_witness :
  let server := λ _ : Route.TranslateRequest, @Rejects Route.Payload in
  let r := translate server Scenario.hello (lit "en") (lit "hi") initial in
  isTranslating r.2 = false
  ∧ requests r.2 = [ {| Route.text := Some Scenario.hello;
                        Route.sourceLang := Some (lit "en");
                        Route.targetLang := Some (lit "hi") |} ]
  ∧ r.1 = Return Scenario.hello ∧ error r.2 = Some FAILED.
Proof.
  destruct (translate_never_rejects (λ _, Rejects) Scenario.hello
              (lit "en") (lit "hi") initial) as (_ & _ & H).
  destruct H as (H1 & H2 & H3); [vm_compute; discriminate|].
  destruct H3 as (H3 & H4); [exact I|].
  repeat split; assumption.
Defined.

(** C10.  The degraded answer of the route has status 503, which is not
    [ok]; so when the route gives that answer, the hook throws before it
    reads the body: it returns the input text, sets the error flag and
    clears the busy flag.  For every status outside 2xx the result of the
    hook is the same whatever the body is, so the test on [isFallback] and
    [source] only decides anything for a 2xx answer; there, the same
    payload makes the hook return the text without touching the error
    flag. *)
Theorem degraded_answer_takes_error_path env text src tgt st :
  trim text ≠ [] →
  (Route.POST env (request text src tgt) Route.fresh).1
  = Return (Route.degraded_response text tgt) →
  let r := translate (route_server env) text src tgt st in
  Route.status (Route.degraded_response text tgt) = 503%Z
  ∧ r.1 = Return text
  ∧ error r.2 = Some FAILED
  ∧ isTranslating r.2 = false
  ∧ (∀ status body body' st',
       ok status = false →
       translate_resume text (Responds status body) st'
       = translate_resume text (Responds status body') st')
  ∧ (∀ status st',
       ok status = true →
       translate_resume text
         (Responds status
            (JsonObject (Route.payload (Route.degraded_response text tgt)))) st'
       = (Return text, {| isTranslating := false; error := error st';
                          requests := requests st' |})).
Proof.
  intros Hblank Hdeg. simpl. split; [done|].
  assert (Hserver :
    route_server env {| Route.text := Some text; Route.sourceLang := Some src;
                        Route.targetLang := Some tgt |}
    = Responds 503 (JsonObject (Route.payload (Route.degraded_response text tgt)))).
  { unfold route_server. unfold request in Hdeg.
    destruct (Route.POST env _ Route.fresh) as [c w]. simpl in Hdeg. by subst c. }
  rewrite translate_sends by done. simpl. rewrite Hserver.
  rewrite translate_resume_failure by by left. simpl.
  split; [done|]. split; [done|]. split; [done|]. split.
  - intros status body body' st' Hok.
    rewrite !translate_resume_failure; [done | by left | by left].
  - intros status st' Hok. unfold translate_resume. eff. simpl.
    rewrite Hok. simpl. rewrite !bool_decide_eq_true_2 by done. done.
Qed.

Lemma degraded_answer_takes_error_path_witness :
  let r := translate (route_server Scenario.refusing)
             Scenario.hello (lit "en") (lit "hi") initial in
  Route.status (Route.degraded_response Scenario.hello (lit "hi")) = 503%Z
  ∧ r.1 = Return Scenario.hello
  ∧ error r.2 = Some FAILED
  ∧ isTranslating r.2 = false.
Proof.
  destruct (degraded_answer_takes_error_path Scenario.refusing
              Scenario.hello (lit "en") (lit "hi") initial)
    as (H1 & H2 & H3 & H4 & _).
  - vm_compute. discriminate.
  - vm_compute. reflexivity.
  - repeat split; assumption.
Defined.

End HookFacts.

(** ** The auto-retranslation controller *)

Module NarrativeFacts.
Import JS Eff JSFacts EffTactics.
Import Narrative Session.

Local Opaque lit RULE PLACEHOLDER_MARK NOTE_MARK unavailable_note error_note.

(** *** How a suspended call ends *)

(** [handleTranslate] returns the translation, or the text with a note
    when the translation is the text itself, is empty, or failed. *)
Lemma handleTranslate_resume_returns text targetLang settled st :
  (handleTranslate_resume text targetLang settled st).1
  = Return match settled with
           | Return translatedText =>
               if eqb translatedText text || falsy translatedText
               then unavailable_note text targetLang
               else translatedText
           | Throw _ => error_note text targetLang
           end.
Proof.
  unfold handleTranslate_resume. eff.
  destruct settled as [v|e]; simpl; [|done].
  by destruct (eqb v text || falsy v).
Qed.

Lemma displayed_cases p settled :
  displayed p settled
  = match settled with
    | Return translatedText =>
        if eqb translatedText (p_text p) || falsy translatedText
        then unavailable_note (p_text p) (p_targetLang p)
        else translatedText
    | Throw _ => error_note (p_text p) (p_targetLang p)
    end.
Proof.
  unfold displayed, settle.
  pose proof (handleTranslate_resume_returns (p_text p) (p_targetLang p)
                settled (generated [])) as E.
  destruct (handleTranslate_resume _ _ _ _) as [c st1].
  simpl in E. subst c. unfold translateContent_resume.
  by destruct (includes NOTE_MARK _).
Qed.

(** [settle] displays the result of [handleTranslate], whatever is selected
    by then, and leaves the selection, the original, the ref of the last
    language, the hook and the suspended calls alone. *)
Lemma settle_fields p settled st :
  let st' := settle p settled st in
  generatedText st' = displayed p settled
  ∧ originalGeneratedText st' = originalGeneratedText st
  ∧ selectedLanguage st' = selectedLanguage st
  ∧ lastTranslatedLangRef st' = lastTranslatedLangRef st
  ∧ hook st' = hook st
  ∧ inflight st' = inflight st
  ∧ next_request st' = next_request st.
Proof.
  simpl. rewrite displayed_cases. unfold settle.
  pose proof (handleTranslate_resume_returns (p_text p) (p_targetLang p) settled st) as E.
  destruct (handleTranslate_resume _ _ _ st) as [c st1] eqn:Hr.
  simpl in E. subst c.
  assert (Hst1 : originalGeneratedText st1 = originalGeneratedText st
                 ∧ selectedLanguage st1 = selectedLanguage st
                 ∧ lastTranslatedLangRef st1 = lastTranslatedLangRef st
                 ∧ hook st1 = hook st ∧ inflight st1 = inflight st
                 ∧ next_request st1 = next_request st).
  { revert Hr. unfold handleTranslate_resume. eff.
    destruct settled as [v|e]; simpl.
    - destruct (eqb v _ || falsy v); intros H; inversion H; done.
    - intros H; inversion H; done. }
  destruct Hst1 as (? & ? & ? & ? & ? & ?).
  unfold translateContent_resume.
  destruct (includes NOTE_MARK _); simpl; repeat split; done.
Qed.

(** *** [handleTranslate] and the effect *)

(** [handleTranslate] keeps the original, the selection and the ref, and
    puts at most one request on the network. *)
Lemma handleTranslate_start_fields text targetLang st :
  let st' := handleTranslate_start text targetLang st in
  originalGeneratedText st' = originalGeneratedText st
  ∧ selectedLanguage st' = selectedLanguage st
  ∧ lastTranslatedLangRef st' = lastTranslatedLangRef st
  ∧ (network_calls st' = network_calls st
     ∨ network_calls st' = S (network_calls st)).
Proof.
  simpl. unfold handleTranslate_start.
  destruct (falsy text || falsy targetLang || eqb targetLang (lit "en")).
  { unfold translateContent_resume.
    destruct (includes NOTE_MARK text); simpl; repeat split; by left. }
  destruct (includes PLACEHOLDER_MARK text || includes NOTE_MARK text).
  { unfold translateContent_resume.
    destruct (includes NOTE_MARK text); simpl; repeat split; by left. }
  unfold Hook.translate_start. simpl.
  destruct (falsy (trim text)).
  - match goal with |- context [settle ?p ?c ?s] =>
      destruct (settle_fields p c s) as (_ & -> & -> & -> & Hh & _) end.
    unfold network_calls. rewrite Hh. simpl. repeat split; by left.
  - unfold network_calls. simpl. rewrite length_app. simpl.
    repeat split; try done. right. lia.
Qed.

Lemma guard_spec st :
  truthy (originalGeneratedText st) && truthy (selectedLanguage st)
  && negb (eqb (selectedLanguage st) (lit "en"))
  && negb (eqb (lastTranslatedLangRef st) (selectedLanguage st)) = true
  ↔ guard st.
Proof.
  unfold guard.
  rewrite !andb_true_iff, !negb_true_iff, !truthy_true, !eqb_neq.
  intuition congruence.
Qed.

Lemma effect_guarded st :
  guard st →
  effect st =
  handleTranslate_start (originalGeneratedText st) (selectedLanguage st)
    (set_hasShownTranslationNoteRef false
       (set_lastTranslatedLangRef (selectedLanguage st) st)).
Proof. intros Hg. apply guard_spec in Hg. unfold effect. by rewrite Hg. Qed.

Lemma effect_unguarded st :
  ¬ guard st →
  effect st =
  if eqb (selectedLanguage st) (lit "en") && truthy (originalGeneratedText st)
  then set_hasShownTranslationNoteRef false
         (set_lastTranslatedLangRef (lit "en")
            (setGeneratedText (originalGeneratedText st) st))
  else st.
Proof.
  intros Hg. unfold effect.
  destruct (_ && negb (eqb (lastTranslatedLangRef st) _)) eqn:E; [|done].
  by apply guard_spec in E.
Qed.

(** The effect puts a request on the network only under its guard, and
    then only one. *)
Lemma effect_network_calls st :
  network_calls (effect st) = network_calls st
  ∨ (guard st ∧ network_calls (effect st) = S (network_calls st)).
Proof.
  destruct (decide (guard st)) as [Hg|Hg].
  - rewrite effect_guarded by done.
    match goal with |- context [handleTranslate_start ?t ?l ?s] =>
      destruct (handleTranslate_start_fields t l s) as (_ & _ & _ & [E|E]) end.
    + left. by rewrite E.
    + right. split; [done|]. by rewrite E.
  - left. rewrite effect_unguarded by done.
    by destruct (eqb _ _ && truthy _).
Qed.

Lemma setSelectedLanguage_same st L :
  selectedLanguage st = L → setSelectedLanguage L st = st.
Proof. intros <-. by destruct st. Qed.

(** Once the effect has run, running it again changes nothing. *)
Lemma effect_idempotent st : effect (effect st) = effect st.
Proof.
  destruct (decide (guard st)) as [Hg|Hg].
  - rewrite (effect_guarded st) by done.
    match goal with |- context [handleTranslate_start ?t ?l ?s] =>
      destruct (handleTranslate_start_fields t l s) as (Ho & Hs & Hl & _);
      set (st1 := handleTranslate_start t l s) in * end.
    simpl in Ho, Hs, Hl.
    destruct Hg as (_ & _ & Hen & _).
    rewrite effect_unguarded.
    + rewrite Hs. apply eqb_neq in Hen. by rewrite Hen.
    + intros (_ & _ & _ & Hne). apply Hne. by rewrite Hs, Hl.
  - rewrite (effect_unguarded st) by done.
    destruct (eqb (selectedLanguage st) (lit "en")
              && truthy (originalGeneratedText st)) eqn:E; [|by rewrite effect_unguarded, E].
    apply andb_true_iff in E as [Hen Ho].
    rewrite effect_unguarded; simpl.
    + rewrite Hen, Ho. by destruct st.
    + apply eqb_eq in Hen. intros (_ & _ & Hne & _). done.
Qed.

Lemma effect_keeps_selection st :
  selectedLanguage (effect st) = selectedLanguage st.
Proof.
  destruct (decide (guard st)) as [Hg|Hg].
  - rewrite effect_guarded by done.
    match goal with |- context [handleTranslate_start ?t ?l ?s] =>
      destruct (handleTranslate_start_fields t l s) as (_ & -> & _) end.
    done.
  - rewrite effect_unguarded by done. by destruct (eqb _ _ && truthy _).
Qed.

(** *** Requests and their answers *)






(** *** Switching twice *)

(** C2.  Selecting language [L] twice in succession puts at most one
    request on the network: the second selection finds the state as the
    first left it and changes nothing.  A run of the effect sends a
    request only under its guard (the original text is not empty, a
    language other than ["en"] is selected, and it differs from the
    language of the last translation), and then exactly one. *)
Theorem switching_twice_issues_one_call st L :
  let st1 := step st (SelectLanguage L) in
  let st2 := step st1 (SelectLanguage L) in
  st2 = st1
  ∧ network_calls st2 ≤ S (network_calls st)
  ∧ (∀ s, network_calls (effect s) ≠ network_calls s →
          guard s ∧ network_calls (effect s) = S (network_calls s)).
Proof.
  simpl. split; [|split].
  - rewrite (setSelectedLanguage_same (effect _) L)
      by by rewrite effect_keeps_selection.
    apply effect_idempotent.
  - rewrite (setSelectedLanguage_same (effect _) L)
      by by rewrite effect_keeps_selection.
    rewrite effect_idempotent.
    destruct (effect_network_calls (setSelectedLanguage L st)) as [E|[_ E]];
      rewrite E; unfold network_calls; simpl; lia.
  - intros s Hne. by destruct (effect_network_calls s) as [E|[Hg E]].
Qed.

(** *** Back to English *)

(** C5.  While an original text exists, selecting ["en"] displays exactly
    the original text and sets the ref of the last language to ["en"]; no
    request is sent and no call is suspended or resumed. *)
Theorem switching_to_english_restores_original st :
  originalGeneratedText st ≠ [] →
  let st' := step st (SelectLanguage (lit "en")) in
  generatedText st' = originalGeneratedText st
  ∧ lastTranslatedLangRef st' = lit "en"
  ∧ selectedLanguage st' = lit "en"
  ∧ hasShownTranslationNoteRef st' = false
  ∧ network_calls st' = network_calls st
  ∧ hook st' = hook st
  ∧ inflight st' = inflight st.
Proof.
  intros Ho. simpl. rewrite effect_unguarded.
  - simpl. rewrite eqb_refl. apply truthy_true in Ho. rewrite Ho. done.
  - intros (_ & _ & Hen & _). done.
Qed.

Lemma switching_to_english_restores_original_witness :
  let st := step (generated Scenario.hello) (SelectLanguage (lit "hi")) in
  let st' := step st (SelectLanguage (lit "en")) in
  generatedText st' = Scenario.hello
  ∧ lastTranslatedLangRef st' = lit "en"
  ∧ selectedLanguage st' = lit "en"
  ∧ hasShownTranslationNoteRef st' = false
  ∧ network_calls st' = 1
  ∧ hook st' = hook st
  ∧ inflight st' = inflight st.
Proof.
  apply (switching_to_english_restores_original
           (step (generated Scenario.hello) (SelectLanguage (lit "hi")))).
  vm_compute. discriminate.
Defined.

(** *** Two selections in a row, answers in the opposite order *)




End NarrativeFacts.

(** ** The alerts proxy and the poller *)

Module AlertsFacts.
Import JS Eff JSFacts EffTactics.
Import Alerts Polling.

Local Opaque lit.

Section WithAlert.
Context {CrisisAlert : Type}.
Implicit Types (st : State CrisisAlert)
               (outcome upstream : fetched (AlertsData CrisisAlert)).

(** The proxy answers a failing monitoring service with 502 or 500 and an
    empty list. *)
Lemma proxy_of_failure message_of upstream :
  upstream_failure upstream →
  ∃ status data, proxy message_of upstream = Responds status (JsonObject data)
                 ∧ (status = 502%Z ∨ status = 500%Z)
                 ∧ alerts_field data = Some [].
Proof.
  unfold upstream_failure, proxy, GET. eff.
  destruct upstream as [|status body]; simpl.
  - intros _. eexists _, _. split; [done|]. split; [by right|done].
  - intros [Hok|[->| ->]].
    + rewrite Hok. simpl.
      destruct body; simpl; eexists _, _;
        (split; [done|]); (split; [|done]); by (left + right).
    + destruct (negb (ok status)); simpl; eexists _, _;
        (split; [done|]); (split; [|done]); [by left|by right].
    + destruct (negb (ok status)); simpl; eexists _, _;
        (split; [done|]); (split; [|done]); by right.
Qed.

(** The poller from the moment the answer arrives: it returns normally,
    and the list it displays afterwards is the one of the answer when
    the view is mounted and the answer carries a non-empty list, and the
    previous one otherwise. *)
Lemma fetchAlerts_resume_spec outcome st :
  ∃ st', fetchAlerts_resume outcome st = (Return tt, st')
         ∧ mounted st' = mounted st
         ∧ ((alerts st' = alerts st)
            ∨ (mounted st = true ∧ poll_success outcome (alerts st'))).
Proof.
  destruct st as [shown loading is_mounted].
  unfold fetchAlerts_resume. eff.
  destruct outcome as [|status body]; simpl.
  { eexists. split; [done|]. destruct is_mounted; simpl; split; by try left. }
  destruct (negb (ok status)) eqn:Hok; simpl.
  { eexists. split; [done|]. destruct is_mounted; simpl; split; by try left. }
  apply negb_false_iff in Hok.
  destruct body as [| |data|]; simpl;
    try (eexists; split; [done|]; destruct is_mounted; simpl; split; by try left).
  destruct (alerts_field data) as [[|a l]|] eqn:Hf; simpl;
    try (eexists; split; [done|]; destruct is_mounted; simpl; split; by try left).
  destruct is_mounted; simpl.
  - eexists. split; [done|]. simpl. split; [done|]. right.
    split; [done|]. split; [done|]. by exists status, data.
  - eexists. split; [done|]. simpl. split; [done|]. by left.
Qed.

Lemma fetchAlerts_resume_failure outcome st :
  poll_failure outcome →
  alerts (fetchAlerts_resume outcome st).2 = alerts st.
Proof.
  destruct st as [shown loading is_mounted].
  unfold fetchAlerts_resume, poll_failure. eff.
  destruct outcome as [|status body]; simpl.
  { intros _. by destruct is_mounted. }
  intros [Hok|[-> |[-> | ->]]].
  - rewrite Hok. simpl. by destruct is_mounted.
  - destruct (negb (ok status)); simpl; by destruct is_mounted.
  - destruct (negb (ok status)); simpl; by destruct is_mounted.
  - destruct (negb (ok status)); simpl; by destruct is_mounted.
Qed.

Lemma fetchAlerts_resume_success outcome st l :
  poll_success outcome l → mounted st = true →
  alerts (fetchAlerts_resume outcome st).2 = l.
Proof.
  intros (Hne & status & data & -> & Hok & Hf) Hm.
  destruct st as [shown loading is_mounted]. simpl in Hm. subst is_mounted.
  unfold fetchAlerts_resume. eff. simpl. rewrite Hok, Hf. simpl.
  by destruct l as [|a l].
Qed.

(** C9.  Whatever state the view is in when the answer to a poll
    arrives: the poller returns without an exception; the displayed list
    changes only if the view is mounted and the answer is a 2xx answer
    with a non-empty list, and then it becomes that list; on a failure
    (rejected request, status outside 2xx, body that is not JSON) the
    list stays as it was; and a failure of the monitoring service,
    which the proxy turns into a 502 or 500, leaves the list as it was.
    Starting a poll does not touch the list either. *)
Theorem poll_frame message_of outcome upstream st :
  let r := fetchAlerts_resume outcome st in
  r.1 = Return tt
  ∧ alerts (fetchAlerts_start st) = alerts st
  ∧ (alerts r.2 ≠ alerts st →
     mounted st = true ∧ poll_success outcome (alerts r.2))
  ∧ (∀ l, poll_success outcome l → mounted st = true → alerts r.2 = l)
  ∧ (poll_failure outcome → alerts r.2 = alerts st)
  ∧ (upstream_failure upstream →
     poll_failure (proxy message_of upstream)
     ∧ alerts (fetchAlerts_resume (proxy message_of upstream) st).2 = alerts st
     ∧ (fetchAlerts_resume (proxy message_of upstream) st).1 = Return tt).
Proof.
  simpl.
  destruct (fetchAlerts_resume_spec outcome st) as (st' & E & Hm & Hal).
  rewrite E. simpl. split; [done|]. split; [done|]. split; [|split; [|split]].
  - intros Hne. by destruct Hal as [Heq|Hs].
  - intros l Hs Hmt.
    pose proof (fetchAlerts_resume_success outcome st l Hs Hmt) as E'.
    by rewrite E in E'.
  - intros Hf. pose proof (fetchAlerts_resume_failure outcome st Hf) as E'.
    by rewrite E in E'.
  - intros Hu.
    assert (Hpf : poll_failure (proxy message_of upstream)).
    { destruct (proxy_of_failure message_of upstream Hu)
        as (status & data & -> & [-> | ->] & _); by left. }
    split; [done|]. split; [by apply fetchAlerts_resume_failure|].
    by destruct (fetchAlerts_resume_spec (proxy message_of upstream) st)
      as (st'' & -> & _).
Qed.

End WithAlert.

Lemma poll_frame_witness :
  let upstream := Responds 500 NotJson in
  let r := fetchAlerts_resume (proxy no_message upstream)
             (fetchAlerts_start showing) in
  proxy no_message upstream
  = Responds 502 (JsonObject {| alerts_field := Some [];
                                error_field := Some (lit "Bad gateway") |})
  ∧ alerts r.2 = [1; 2]
  ∧ r.1 = Return tt
  ∧ alerts (fetchAlerts_resume
              (Responds 200 (JsonObject {| alerts_field := Some [7; 8; 9];
                                           error_field := None |}))
              (fetchAlerts_start showing)).2 = [7; 8; 9].
Proof.
  pose proof (poll_frame no_message
                (Responds 200 (JsonObject {| alerts_field := Some [7; 8; 9];
                                             error_field := None |}))
                (Responds 500 NotJson) (fetchAlerts_start showing))
    as (_ & _ & _ & Hs & _ & Hu).
  destruct Hu as (_ & Hu1 & Hu2); [by left|].
  split; [by vm_compute|]. split; [exact Hu1|]. split; [exact Hu2|].
  apply Hs; [|reflexivity].
  split; [discriminate|]. by eexists _, _.
Defined.

End AlertsFacts.

(** ** More on strings *)

Module JSMore.
Import JS JSFacts.

Lemma trimStart_all_white (s : jsstring) :
  forallb is_white_space s = true → trimStart s = [].
Proof.
  induction s as [|c s IH]; simpl; [done|].
  intros [Hc Hs]%andb_true_iff. rewrite Hc. by apply IH.
Qed.

Lemma trimStart_app (a b : jsstring) :
  trimStart (a ++ b)
  = if forallb is_white_space a then trimStart b else trimStart a ++ b.
Proof.
  induction a as [|c a IH]; simpl; [done|].
  destruct (is_white_space c); simpl; [apply IH|done].
Qed.

Lemma trimStart_idempotent (s : jsstring) : trimStart (trimStart s) = trimStart s.
Proof.
  induction s as [|c s IH]; simpl; [done|].
  destruct (is_white_space c) eqn:Hc; [done|]. simpl. by rewrite Hc.
Qed.

(** What is left of a text by [trimStart] is empty or starts with a code
    unit that is not white space. *)
Lemma trimStart_head (s : jsstring) :
  trimStart s = [] ∨ ∃ c t, trimStart s = c :: t ∧ is_white_space c = false.
Proof.
  induction s as [|c s IH]; simpl; [by left|].
  destruct (is_white_space c) eqn:Hc; [done|]. right. by exists c, s.
Qed.

Lemma trimEnd_nil : trimEnd [] = [].
Proof. reflexivity. Qed.

Lemma trimEnd_cons (c : N) (l : jsstring) :
  is_white_space c = false → trimEnd (c :: l) = c :: trimEnd l.
Proof.
  intros Hc. unfold trimEnd. rewrite reverse_cons, trimStart_app.
  destruct (forallb is_white_space (reverse l)) eqn:Hall.
  - rewrite (trimStart_all_white _ Hall). simpl. by rewrite Hc.
  - by rewrite reverse_app.
Qed.

Lemma trimEnd_idempotent (s : jsstring) : trimEnd (trimEnd s) = trimEnd s.
Proof.
  unfold trimEnd. by rewrite reverse_involutive, trimStart_idempotent.
Qed.

(** [trim] changes nothing in a text that it has produced. *)
Lemma trim_idempotent (s : jsstring) : trim (trim s) = trim s.
Proof.
  unfold trim. destruct (trimStart_head s) as [E|(c & t & E & Hc)]; rewrite E.
  - done.
  - rewrite (trimEnd_cons c t Hc). simpl. rewrite Hc.
    rewrite <- (trimEnd_cons c t Hc). apply trimEnd_idempotent.
Qed.

End JSMore.

(** ** More on the translate route *)

Module RouteMore.
Import JS Eff Route Observe ObserveRoute JSFacts EffTactics.

Local Opaque LANGUAGE_NAMES GOOGLE_LANGUAGE_CODES GOOGLE_TRUNCATION_NOTE
  MYMEMORY_TRUNCATION_NOTE lit slice0 Z.gtb.

(** *** Requests that do not reach the chain *)

Lemma POST_incomplete env body w :
  incomplete body → POST env (JsonObject body) w = (Return MISSING_FIELDS, w).
Proof.
  intros Hinc. unfold incomplete in Hinc.
  unfold POST. eff. simpl. by rewrite Hinc.
Qed.

(** A body that is not JSON, is [null], or cannot be read is answered 500;
    a body with an absent or empty field is answered 400.  In both cases no
    provider is contacted and the clock is not read. *)
Theorem malformed_requests env w :
  POST env NotJson w = (Return SERVICE_ERROR, w)
  ∧ POST env JsonNull w = (Return SERVICE_ERROR, w)
  ∧ POST env Unreadable w = (Return SERVICE_ERROR, w)
  ∧ (∀ body, incomplete body →
       POST env (JsonObject body) w = (Return MISSING_FIELDS, w)).
Proof.
  split; [done|]. split; [done|]. split; [done|].
  intros body. apply POST_incomplete.
Qed.

Lemma malformed_requests_witness :
  POST Scenario.echoing
    (JsonObject {| text := Some Scenario.hello; sourceLang := None;
                   targetLang := Some (lit "hi") |}) fresh
  = (Return MISSING_FIELDS, fresh).
Proof.
  apply (malformed_requests Scenario.echoing fresh). reflexivity.
Defined.

(** A body is incomplete, or it is a request with three non-empty fields. *)
Lemma complete_or_not (body : TranslateRequest) :
  incomplete body
  ∨ ∃ text src tgt, body = {| text := Some text; sourceLang := Some src;
                              targetLang := Some tgt |}
                    ∧ text ≠ [] ∧ src ≠ [] ∧ tgt ≠ [].
Proof.
  unfold incomplete. destruct body as [[t|] [s|] [g|]]; simpl;
    try (left; by rewrite ?orb_true_r).
  destruct t, s, g; simpl; try (by left).
  right. by eexists _, _, _.
Qed.

(** *** Every request gets an answer *)

Lemma chain_result env text src tgt :
  reaches_providers text src tgt →
  ∃ r w, POST env (request text src tgt) fresh = (Return r, w)
         ∧ chain_shaped (calls w)
         ∧ (r = SERVICE_ERROR
            ∨ r = degraded_response text tgt
            ∨ (∃ g ms, primary_result env text src tgt = Return (Some g)
                       ∧ g ≠ [] ∧ r = google_response g ms
                       ∧ ¬ secondary_attempted w)
            ∨ (∃ c ms, primary_failed env text src tgt
                       ∧ secondary_result env text src tgt = Return (Some c)
                       ∧ c ≠ [] ∧ src = lit "en"
                       ∧ in_LANGUAGE_NAMES tgt = true
                       ∧ r = cloud_fallback_response c ms)).
Proof.
  intros Hr. rewrite RouteFacts.POST_chain by done.
  rewrite RouteFacts.google_frame. simpl.
  pose proof (RouteFacts.google_calls_shape env text src tgt) as Hg. simpl in Hg.
  pose proof (RouteFacts.google_result_truthy env text src tgt fresh) as Hgt.
  fold (primary_result env text src tgt) in *.
  unfold primary_failed.
  destruct (translateWithGoogleAPI env text src tgt fresh) as [c1 w1] eqn:E1.
  unfold primary_result in *. rewrite E1 in *. simpl in *.
  assert (Hshape1 : calls w1 = [] ∨ ∃ g, calls w1 = [CallGoogle g]).
  { destruct Hg as [->|(gs & gt & ->)]; [by left|right; by eexists]. }
  destruct c1 as [g|e].
  2:{ eexists _, _. split; [done|]. simpl. split; [|by left].
      destruct Hshape1 as [->|(g & ->)]; [by left|right; left; by eexists]. }
  destruct (truthy_opt g) eqn:Htg.
  { apply truthy_opt_spec in Htg as (t & -> & Hne).
    eexists _, _. split; [done|]. simpl. split.
    - destruct Hshape1 as [->|(g & ->)]; [by left|right; left; by eexists].
    - right; right; left. eexists t, _. repeat split; try done.
      intros (c & Hc & Hm).
      destruct Hshape1 as [E|(q & E)]; rewrite E in Hc.
      + by apply elem_of_nil in Hc.
      + apply list_elem_of_singleton in Hc. by subst c. }
  apply truthy_opt_false in Htg as [-> | ->]; [|by destruct (Hgt [])].
  destruct (eqb src (lit "en") && in_LANGUAGE_NAMES tgt) eqn:Hel.
  2:{ eexists _, _. split; [done|]. simpl. split; [|by right; left].
      destruct Hshape1 as [->|(g & ->)]; [by left|right; left; by eexists]. }
  apply andb_true_iff in Hel as [He Hin]. apply eqb_eq in He.
  rewrite RouteFacts.mymemory_frame. simpl.
  pose proof (RouteFacts.mymemory_calls_shape env text src tgt) as Hm. simpl in Hm.
  destruct (RouteFacts.mymemory_returns env text src tgt fresh) as (c & Hc).
  fold (secondary_result env text src tgt).
  unfold secondary_result.
  destruct (translateWithMyMemory env text src tgt fresh) as [c2 w2] eqn:E2.
  simpl in *. subst c2.
  assert (Hshape : chain_shaped (calls w1 ++ calls w2)).
  { destruct Hshape1 as [->|(g & ->)]; destruct Hm as [-> | ->]; simpl.
    - by left.
    - right; right; left. by eexists.
    - right; left. by eexists.
    - right; right; right. by eexists _, _. }
  destruct (truthy_opt c) eqn:Htc.
  - apply truthy_opt_spec in Htc as (t & -> & Hne).
    eexists _, _. split; [done|]. simpl. split; [done|].
    right; right; right. eexists t, _. repeat split; done.
  - eexists _, _. split; [done|]. simpl. split; [done|]. by right; left.
Qed.

Lemma POST_same_codes env text lang w :
  text ≠ [] → lang ≠ [] →
  POST env (request text lang lang) w = (Return (noop_response text), w).
Proof.
  intros Ht Hl. unfold POST, request. eff. simpl.
  apply falsy_false in Ht, Hl. rewrite Ht, Hl. simpl. by rewrite eqb_refl.
Qed.

(** [POST] never throws: whatever the body and whatever the providers do,
    it answers with status 200, 400, 500 or 503, after at most one request
    to Google followed by at most one request to MyMemory. *)
Theorem every_request_is_answered env req :
  ∃ r w, POST env req fresh = (Return r, w)
         ∧ (status r = 200 ∨ status r = 400 ∨ status r = 500 ∨ status r = 503)%Z
         ∧ chain_shaped (calls w).
Proof.
  destruct req as [| |body|].
  - eexists _, _. split; [done|]. split; [by right; right; left | by left].
  - eexists _, _. split; [done|]. split; [by right; right; left | by left].
  - destruct (complete_or_not body) as [Hi|(text & src & tgt & -> & Ht & Hs & Hg)].
    + eexists _, _. split; [by apply POST_incomplete|].
      split; [by right; left | by left].
    + destruct (decide (src = tgt)) as [->|Hne].
      * eexists _, _. split; [by apply POST_same_codes|].
        split; [by left | by left].
      * destruct (chain_result env text src tgt) as (r & w & E & Hsh & Hr); [done|].
        exists r, w. split; [done|]. split; [|done].
        destruct Hr as [->|[->|[(g & ms & _ & _ & -> & _)|(c & ms & _ & _ & _ & _ & _ & ->)]]];
          simpl; auto.
  - eexists _, _. split; [done|]. split; [by right; right; left | by left].
Qed.

(** What an answer carries.  Status 200 comes with a [translatedText] that
    is not empty and without [error]; status 503 comes with the text of the
    request as [translatedText] and [isFallback]; status 400 and 500 come
    with an [error] and without [isFallback]. *)
Theorem answers_by_status env text src tgt :
  ∃ r w, POST env (request text src tgt) fresh = (Return r, w)
         ∧ (status r = 200%Z →
            (∃ t, translatedText (payload r) = Some t ∧ t ≠ [])
            ∧ p_error (payload r) = None ∧ isFallback (payload r) = None)
         ∧ (status r = 503%Z →
            translatedText (payload r) = Some text ∧ text ≠ []
            ∧ isFallback (payload r) = Some true
            ∧ p_source (payload r) = Some (lit "none"))
         ∧ (status r = 400%Z ∨ status r = 500%Z →
            is_Some (p_error (payload r)) ∧ isFallback (payload r) = None
            ∧ p_source (payload r) = None).
Proof.
  destruct (complete_or_not {| text := Some text; sourceLang := Some src;
                               targetLang := Some tgt |})
    as [Hi|(text' & src' & tgt' & [= <- <- <-] & Ht & Hs & Hg)].
  { eexists _, _. split; [by apply POST_incomplete|]. simpl.
    split; [done|]. split; [done|]. intros _. by split; [eexists|]. }
  destruct (decide (src = tgt)) as [->|Hne].
  { eexists _, _. split; [by apply POST_same_codes|]. simpl.
    split; [intros _; split; [by eexists|done]|].
    split; [done|]. by intros [|]. }
  destruct (chain_result env text src tgt) as (r & w & E & _ & Hr); [done|].
  exists r, w. split; [done|].
  destruct Hr as [->|[->|[(g & ms & _ & Hgne & -> & _)
                         |(c & ms & _ & _ & Hcne & _ & _ & ->)]]]; simpl.
  - split; [done|]. split; [done|]. intros _. by split; [eexists|].
  - split; [done|]. split; [done|]. by intros [|].
  - split; [intros _; split; [by eexists|done]|]. split; [done|]. by intros [|].
  - split; [intros _; split; [by eexists|done]|]. split; [done|]. by intros [|].
Qed.

(** *** The API key and the health check *)

Lemma google_without_key env text src tgt w :
  falsy_opt (GOOGLE_TRANSLATE_API_KEY env) = true →
  translateWithGoogleAPI env text src tgt w = (Return None, w).
Proof. intros Hk. unfold translateWithGoogleAPI. by rewrite Hk. Qed.

(** When the health check reports 503 (no API key), no request of [POST]
    goes to Google and no answer has the source ["google"], whatever the
    request. *)
Theorem unhealthy_route_never_asks_google env req :
  Health.status (Health.GET env) = 503%Z →
  Health.hasApiKey (Health.report (Health.GET env)) = false
  ∧ ¬ primary_attempted (POST env req fresh).2
  ∧ ∀ r, (POST env req fresh).1 = Return r →
         p_source (payload r) ≠ Some (lit "google").
Proof.
  unfold Health.GET.
  destruct (falsy_opt (GOOGLE_TRANSLATE_API_KEY env)) eqn:Hk; [|done].
  intros _. split; [done|].
  assert (Hnone : ∀ w : World, calls w = [] → ¬ primary_attempted w).
  { intros w E (c & Hc & _). rewrite E in Hc. by apply elem_of_nil in Hc. }
  assert (Hsrc : ∀ r, r = SERVICE_ERROR ∨ r = MISSING_FIELDS
                      ∨ (∃ t, r = noop_response t)
                      ∨ (∃ t g, r = degraded_response t g)
                      ∨ (∃ c ms, r = cloud_fallback_response c ms) →
                      p_source (payload r) ≠ Some (lit "google")).
  { intros r [->|[->|[(t & ->)|[(t & g & ->)|(c & ms & ->)]]]]; simpl;
      try done; intros H; vm_compute in H; discriminate. }
  destruct req as [| |body|].
  { change (POST env NotJson fresh) with (Return SERVICE_ERROR, fresh). simpl.
    split; [by apply Hnone|]. intros r [= <-]. apply Hsrc. by left. }
  { change (POST env JsonNull fresh) with (Return SERVICE_ERROR, fresh). simpl.
    split; [by apply Hnone|]. intros r [= <-]. apply Hsrc. by left. }
  2:{ change (POST env Unreadable fresh) with (Return SERVICE_ERROR, fresh). simpl.
      split; [by apply Hnone|]. intros r [= <-]. apply Hsrc. by left. }
  destruct (complete_or_not body) as [Hi|(text & src & tgt & -> & Ht & Hs & Hg)].
  { rewrite POST_incomplete by done. simpl. split; [by apply Hnone|].
    intros r [= <-]. apply Hsrc. auto. }
  destruct (decide (src = tgt)) as [->|Hne].
  { change (JsonObject _) with (request text tgt tgt).
    rewrite POST_same_codes by done. simpl. split; [by apply Hnone|].
    intros r [= <-]. apply Hsrc. right; right; left. by eexists. }
  change (JsonObject _) with (request text src tgt).
  rewrite RouteFacts.POST_chain by done.
  rewrite google_without_key by done. simpl.
  destruct (eqb src (lit "en") && in_LANGUAGE_NAMES tgt).
  2:{ simpl. split; [by apply Hnone|]. intros r [= <-]. apply Hsrc.
      right; right; right; left. by eexists _, _. }
  rewrite RouteFacts.mymemory_frame. simpl.
  pose proof (RouteFacts.mymemory_calls_shape env text src tgt) as Hm. simpl in Hm.
  destruct (RouteFacts.mymemory_returns env text src tgt fresh) as (c & Hc).
  destruct (translateWithMyMemory env text src tgt fresh) as [c2 w2].
  simpl in *. subst c2.
  assert (Hw2 : ∀ n, ¬ primary_attempted {| calls := calls w2; clock_reads := n |}).
  { intros n (c' & Hc' & Hg'). simpl in Hc'.
    destruct Hm as [E|E]; rewrite E in Hc'.
    - by apply elem_of_nil in Hc'.
    - apply list_elem_of_singleton in Hc'. by subst c'. }
  destruct (truthy_opt c); simpl.
  - split; [apply Hw2|]. intros r [= <-]. apply Hsrc.
    right; right; right; right. by eexists _, _.
  - split; [apply Hw2|]. intros r [= <-]. apply Hsrc.
    right; right; right; left. by eexists _, _.
Qed.

Lemma unhealthy_route_never_asks_google_witness :
  Health.hasApiKey (Health.report (Health.GET Scenario.echoing_without_key)) = false
  ∧ ¬ primary_attempted
        (POST Scenario.echoing_without_key
           (request Scenario.hello (lit "en") (lit "hi")) fresh).2
  ∧ ∀ r, (POST Scenario.echoing_without_key
            (request Scenario.hello (lit "en") (lit "hi")) fresh).1 = Return r →
         p_source (payload r) ≠ Some (lit "google").
Proof.
  apply (unhealthy_route_never_asks_google Scenario.echoing_without_key).
  vm_compute. reflexivity.
Defined.

(** *** Language codes that Google does not have *)

(** None of the inherited names is a key of the two tables. *)
Lemma inherited_is_not_listed (k : jsstring) :
  inherited k = true →
  GOOGLE_LANGUAGE_CODES !! k = None ∧ LANGUAGE_NAMES !! k = None.
Proof.
  intros H. apply bool_decide_eq_true in H. unfold Object_prototype in H.
  repeat (apply elem_of_cons in H as [-> | H]); [by vm_compute..|].
  by apply elem_of_nil in H.
Qed.

Lemma lookup_inherited (k : jsstring) :
  inherited k = true →
  lookup_property GOOGLE_LANGUAGE_CODES k = Builtin k
  ∧ lookup_property LANGUAGE_NAMES k = Builtin k
  ∧ in_LANGUAGE_NAMES k = true.
Proof.
  intros H. destruct (inherited_is_not_listed k H) as [Hg Hl].
  unfold in_LANGUAGE_NAMES, has_property, lookup_property.
  rewrite Hg, Hl, H. by rewrite orb_true_r.
Qed.

(** When one of the two codes is neither a key of [GOOGLE_LANGUAGE_CODES]
    nor a name inherited from [Object.prototype], the primary provider
    returns [null] and sends nothing.  An inherited name, such as
    ["constructor"], counts as mapped: with an API key and a source that
    the table lists, the request is sent, with the inherited value in the
    place of the target code. *)
Theorem unmapped_code_is_not_sent env text src tgt w :
  (lookup_property GOOGLE_LANGUAGE_CODES src = Undefined
   ∨ lookup_property GOOGLE_LANGUAGE_CODES tgt = Undefined →
   translateWithGoogleAPI env text src tgt w = (Return None, w))
  ∧ (∀ gs, truthy_opt (GOOGLE_TRANSLATE_API_KEY env) = true →
           GOOGLE_LANGUAGE_CODES !! src = Some gs → gs ≠ [] →
           inherited tgt = true →
           calls (translateWithGoogleAPI env text src tgt w).2
           = calls w ++ [CallGoogle {| q := if (len text >? 4500)%Z
                                            then slice0 4500 text else text;
                                       source := Own gs;
                                       target := Builtin tgt |}]).
Proof.
  split.
  - intros Hc. unfold translateWithGoogleAPI.
    destruct (falsy_opt (GOOGLE_TRANSLATE_API_KEY env)); [done|].
    destruct Hc as [-> | ->]; simpl; by rewrite ?orb_true_r.
  - intros gs Hk Hs Hne Ht. destruct w as [cs n].
    destruct (lookup_inherited tgt Ht) as (Hlt & _ & _).
    assert (Hls : lookup_property GOOGLE_LANGUAGE_CODES src = Own gs)
      by (unfold lookup_property; by rewrite Hs).
    unfold translateWithGoogleAPI. rewrite Hlt, Hls.
    apply negb_true_iff in Hk. rewrite Hk.
    unfold falsy_property. simpl. apply truthy_true in Hne. rewrite Hne. simpl.
    eff. unfold send; simpl.
    destruct (google env _) as [|st body]; simpl; [done|].
    destruct (negb (ok st)); [by destruct body|].
    destruct body as [| |data|]; simpl; try done.
    destruct (error data); [done|].
    destruct (translations data) as [[|e es]|]; try done.
    destruct (falsy _); [done|].
    by destruct (len text >? 4500)%Z.
Qed.

Lemma unmapped_code_is_not_sent_witness :
  in_LANGUAGE_NAMES (lit "dcc") = true
  ∧ translateWithGoogleAPI Scenario.echoing Scenario.hello (lit "en") (lit "dcc") fresh
    = (Return None, fresh)
  ∧ calls (translateWithGoogleAPI Scenario.echoing Scenario.hello
             (lit "en") (lit "constructor") fresh).2
    = [CallGoogle {| q := Scenario.hello; source := Own (lit "en");
                     target := Builtin (lit "constructor") |}].
Proof.
  split; [by vm_compute|].
  destruct (unmapped_code_is_not_sent Scenario.echoing Scenario.hello
              (lit "en") (lit "dcc") fresh) as [H1 _].
  split; [apply H1; right; by vm_compute|].
  destruct (unmapped_code_is_not_sent Scenario.echoing Scenario.hello
              (lit "en") (lit "constructor") fresh) as [_ H2].
  rewrite (H2 (lit "en")); [by vm_compute | by vm_compute | by vm_compute
                            | by vm_compute | by vm_compute].
Defined.

(** *** Texts within the limits *)

(** A text of at most 4500 code units goes to Google whole, and what is
    returned is what Google answered, joined and trimmed, without a note;
    a text of at most 500 code units goes to MyMemory whole, and what is
    returned is its [translatedText]. *)
Theorem short_text_is_sent_whole env text src tgt w :
  ((len text ≤ GOOGLE_LIMIT)%Z →
   ∀ out, (translateWithGoogleAPI env text src tgt w).1 = Return (Some out) →
   ∃ gs gt st entries,
     google env {| q := text; source := gs; target := gt |}
     = Responds st (JsonObject {| error := false; translations := Some entries |})
     ∧ gs = lookup_property GOOGLE_LANGUAGE_CODES src
     ∧ gt = lookup_property GOOGLE_LANGUAGE_CODES tgt
     ∧ calls (translateWithGoogleAPI env text src tgt w).2
       = calls w ++ [CallGoogle {| q := text; source := gs; target := gt |}]
     ∧ out = joined entries)
  ∧ ((len text ≤ MYMEMORY_LIMIT)%Z →
     ∀ out, (translateWithMyMemory env text src tgt w).1 = Return (Some out) →
     ∃ st data,
       mymemory env {| mm_q := text; langpair := (src, tgt) |}
       = Responds st (JsonObject data)
       ∧ calls (translateWithMyMemory env text src tgt w).2
         = calls w ++ [CallMyMemory {| mm_q := text; langpair := (src, tgt) |}]
       ∧ responseStatus data = Some 200%Z
       ∧ responseData_translatedText data = Some out).
Proof.
  unfold GOOGLE_LIMIT, MYMEMORY_LIMIT. split.
  - intros Hlen out.
    assert (Hgt : (len text >? 4500)%Z = false).
    { destruct (len text >? 4500)%Z eqn:E; [|done]. apply gtb_gt in E. lia. }
    unfold translateWithGoogleAPI. eff. rewrite Hgt.
    destruct (falsy_opt (GOOGLE_TRANSLATE_API_KEY env)); [done|].
    destruct (falsy_property _ || falsy_property _); [done|].
    unfold send. simpl.
    destruct (google env _) as [|st body] eqn:Hresp; simpl; [done|].
    destruct (negb (ok st)); [by destruct body|].
    destruct body as [| |[err tr]|]; simpl; try done.
    destruct err; [done|].
    destruct tr as [[|e es]|]; try done.
    destruct (falsy _); [done|].
    intros [= <-]. by eexists _, _, st, (e :: es).
  - intros Hlen out.
    assert (Hgt : (len text >? 500)%Z = false).
    { destruct (len text >? 500)%Z eqn:E; [|done]. apply gtb_gt in E. lia. }
    unfold translateWithMyMemory. eff. rewrite Hgt.
    destruct (negb (well_formed _)); simpl; [done|].
    unfold send. simpl.
    destruct (mymemory env _) as [|st body] eqn:Hresp; simpl; [done|].
    destruct (negb (ok st)); [done|].
    destruct body as [| |data|]; simpl; try done.
    destruct (bool_decide _ && truthy_opt _) eqn:Hgood; [|done].
    apply andb_true_iff in Hgood as [Hs Ht]. apply bool_decide_eq_true in Hs.
    apply truthy_opt_spec in Ht as (translated & Ht & _).
    rewrite Ht. simpl. intros [= <-]. by exists st, data.
Qed.

Lemma short_text_is_sent_whole_witness :
  (∃ gs gt st entries,
     google Scenario.echoing {| q := Scenario.hello; source := gs; target := gt |}
     = Responds st (JsonObject {| error := false; translations := Some entries |})
     ∧ gs = lookup_property GOOGLE_LANGUAGE_CODES (lit "en")
     ∧ gt = lookup_property GOOGLE_LANGUAGE_CODES (lit "hi")
     ∧ calls (translateWithGoogleAPI Scenario.echoing Scenario.hello
                (lit "en") (lit "hi") fresh).2
       = calls fresh ++ [CallGoogle {| q := Scenario.hello; source := gs; target := gt |}]
     ∧ replicate 11 88%N = joined entries)
  ∧ (∃ st data,
       mymemory Scenario.echoing {| mm_q := Scenario.hello;
                                    langpair := (lit "en", lit "hi") |}
       = Responds st (JsonObject data)
       ∧ calls (translateWithMyMemory Scenario.echoing Scenario.hello
                  (lit "en") (lit "hi") fresh).2
         = calls fresh ++ [CallMyMemory {| mm_q := Scenario.hello;
                                           langpair := (lit "en", lit "hi") |}]
       ∧ responseStatus data = Some 200%Z
       ∧ responseData_translatedText data = Some (replicate 11 88%N)).
Proof.
  destruct (short_text_is_sent_whole Scenario.echoing Scenario.hello
              (lit "en") (lit "hi") fresh) as (Hg & Hm).
  split.
  - apply Hg; [by vm_compute | by vm_compute].
  - apply Hm; [by vm_compute | by vm_compute].
Defined.

(** *** A surrogate pair cut in two *)

(** When the text that would go to MyMemory (the text, or its first 500 code
    units) has a lone surrogate, [encodeURIComponent] throws: nothing is
    sent and the provider returns [null]. *)
Theorem lone_surrogate_is_not_sent env text src tgt w :
  well_formed (if (len text >? 500)%Z then slice0 500 text else text) = false →
  translateWithMyMemory env text src tgt w = (Return None, w).
Proof.
  intros Hwf. unfold translateWithMyMemory. eff. by rewrite Hwf.
Qed.

(** A well-formed text whose 500th and 501st code units are a surrogate
    pair is such a text. *)
Lemma lone_surrogate_is_not_sent_witness :
  well_formed split_pair = true
  ∧ len split_pair = 501%Z
  ∧ translateWithMyMemory Scenario.echoing split_pair (lit "en") (lit "hi") fresh
    = (Return None, fresh).
Proof.
  split; [by vm_compute|]. split; [by vm_compute|].
  apply (lone_surrogate_is_not_sent Scenario.echoing). by vm_compute.
Defined.

(** *** The two successful answers *)

Lemma mymemory_result_truthy env text src tgt w r :
  (translateWithMyMemory env text src tgt w).1 = Return (Some r) → r ≠ [].
Proof.
  unfold translateWithMyMemory. eff.
  destruct (negb (well_formed _)); simpl; [done|].
  destruct (mymemory env _) as [|st body]; simpl; [done|].
  destruct (negb (ok st)); [done|].
  destruct body as [| |data|]; simpl; try done.
  destruct (bool_decide _ && truthy_opt _) eqn:Hgood; [|done].
  apply andb_true_iff in Hgood as [_ Ht].
  apply truthy_opt_spec in Ht as (translated & -> & Hne). simpl.
  destruct (len text >? 500)%Z; intros [= <-]; [|done].
  intros Hnil. apply app_eq_nil in Hnil as [? _]. done.
Qed.

(** When Google returns a translation, it is the answer, with source
    ["google"] and the time between the two readings of the clock around the
    call; MyMemory is not contacted. *)
Theorem primary_success_short_circuits env text src tgt g :
  reaches_providers text src tgt →
  primary_result env text src tgt = Return (Some g) →
  ∃ w, POST env (request text src tgt) fresh
       = (Return (google_response g (clock env 1 - clock env 0)), w)
       ∧ clock_reads w = 2
       ∧ ¬ secondary_attempted w.
Proof.
  intros Hr Hp. rewrite RouteFacts.POST_chain by done.
  pose proof (RouteFacts.google_result_truthy env text src tgt fresh g Hp) as Hne.
  pose proof (RouteFacts.google_never_asks_mymemory env text src tgt (tick fresh))
    as Hno.
  rewrite RouteFacts.google_frame in *. simpl in *.
  unfold primary_result in Hp.
  destruct (translateWithGoogleAPI env text src tgt fresh) as [c1 w1].
  simpl in *. subst c1.
  assert (Ht : truthy_opt (Some g) = true) by (apply truthy_opt_spec; eauto).
  rewrite Ht. eexists. split; [done|]. split; [done|]. unfold tick. simpl.
  intros (c & Hc & Hm). apply Hno.
  - intros (c' & Hc' & _). by apply elem_of_nil in Hc'.
  - by exists c.
Qed.

Lemma primary_success_short_circuits_witness :
  ∃ w, POST Scenario.echoing (request Scenario.hello (lit "en") (lit "hi")) fresh
       = (Return (google_response (replicate 11 88%N) 1), w)
       ∧ clock_reads w = 2
       ∧ ¬ secondary_attempted w.
Proof.
  apply (primary_success_short_circuits Scenario.echoing Scenario.hello
           (lit "en") (lit "hi") (replicate 11 88%N)).
  - vm_compute. repeat split; discriminate.
  - by vm_compute.
Defined.

(** When Google returns nothing, the source is ["en"], the target passes
    the test [in LANGUAGE_NAMES] and MyMemory returns a translation, that
    translation is the answer, with source ["cloud-fallback"]; its [timeMs]
    covers the call to MyMemory only. *)
Theorem fallback_answer env text tgt c :
  text ≠ [] → tgt ≠ [] → tgt ≠ lit "en" →
  in_LANGUAGE_NAMES tgt = true →
  primary_failed env text (lit "en") tgt →
  secondary_result env text (lit "en") tgt = Return (Some c) →
  ∃ w, POST env (request text (lit "en") tgt) fresh
       = (Return (cloud_fallback_response c (clock env 2 - clock env 1)), w)
       ∧ clock_reads w = 3
       ∧ c ≠ []
       ∧ status (cloud_fallback_response c (clock env 2 - clock env 1)) = 200%Z.
Proof.
  intros Ht Hg Hen Hin Hp Hs.
  assert (Hr : reaches_providers text (lit "en") tgt).
  { repeat split; try done; by vm_compute. }
  rewrite RouteFacts.POST_chain by done.
  pose proof (mymemory_result_truthy env text (lit "en") tgt fresh c Hs) as Hne.
  rewrite RouteFacts.google_frame. simpl.
  unfold primary_failed, primary_result in Hp.
  destruct (translateWithGoogleAPI env text (lit "en") tgt fresh) as [c1 w1].
  simpl in *. subst c1. simpl.
  rewrite eqb_refl, Hin. simpl.
  rewrite RouteFacts.mymemory_frame. simpl.
  unfold secondary_result in Hs.
  destruct (translateWithMyMemory env text (lit "en") tgt fresh) as [c2 w2].
  simpl in *. subst c2.
  assert (Htc : truthy_opt (Some c) = true) by (apply truthy_opt_spec; eauto).
  rewrite Htc. eexists. by repeat split.
Qed.

Lemma fallback_answer_witness :
  ∃ w, POST Scenario.echoing_without_key
         (request Scenario.hello (lit "en") (lit "hi")) fresh
       = (Return (cloud_fallback_response (replicate 11 88%N) 1), w)
       ∧ clock_reads w = 3
       ∧ replicate 11 88%N ≠ []
       ∧ status (cloud_fallback_response (replicate 11 88%N) 1) = 200%Z.
Proof.
  apply (fallback_answer Scenario.echoing_without_key Scenario.hello (lit "hi")
           (replicate 11 88%N)).
  - vm_compute. discriminate.
  - vm_compute. discriminate.
  - vm_compute. discriminate.
  - by vm_compute.
  - by vm_compute.
  - by vm_compute.
Defined.

(** *** Which provider can throw *)

(** [translateWithMyMemory] never throws.  [translateWithGoogleAPI] throws
    exactly when it has sent its request and the request is rejected, or
    the body of the answer cannot be read (whatever the status: the body of
    an answer that is not 2xx is read for the log, outside any [try]), or
    the answer has a 2xx status and a body that is not a JSON object. *)
Theorem which_provider_throws env text src tgt w :
  let query := {| q := if (len text >? 4500)%Z then slice0 4500 text else text;
                  source := lookup_property GOOGLE_LANGUAGE_CODES src;
                  target := lookup_property GOOGLE_LANGUAGE_CODES tgt |} in
  let r := translateWithGoogleAPI env text src tgt w in
  (∃ c, (translateWithMyMemory env text src tgt w).1 = Return c)
  ∧ ((∃ e, r.1 = Throw e)
     ↔ calls r.2 = calls w ++ [CallGoogle query]
       ∧ match google env query with
         | Rejects => True
         | Responds st body =>
             body = Unreadable
             ∨ (ok st = true ∧ (body = NotJson ∨ body = JsonNull))
         end).
Proof.
  cbv zeta. split; [apply RouteFacts.mymemory_returns|].
  assert (Hlen : ∀ c, calls w ≠ calls w ++ [c]).
  { intros c Hc. apply (f_equal length) in Hc. rewrite length_app in Hc.
    simpl in Hc. lia. }
  unfold translateWithGoogleAPI. eff.
  destruct (falsy_opt (GOOGLE_TRANSLATE_API_KEY env)).
  { simpl. split; [by intros (e & ?)|]. intros [Hc _]. by apply Hlen in Hc. }
  destruct (falsy_property _ || falsy_property _).
  { simpl. split; [by intros (e & ?)|]. intros [Hc _]. by apply Hlen in Hc. }
  unfold send. simpl.
  destruct (google env _) as [|st body] eqn:Hresp; simpl.
  { split; [done | by eexists]. }
  destruct (ok st) eqn:Hok; simpl.
  2:{ destruct body; simpl;
        try (split; [by intros (e & ?)|]; by intros [_ [?|[? _]]]).
      split; [intros _; split; [done|by left] | by eexists]. }
  destruct body as [| |[err tr]|]; simpl.
  - split; [intros _; split; [done|]; right; auto | by eexists].
  - split; [intros _; split; [done|]; right; auto | by eexists].
  - assert (Hfalse : ¬ (JsonObject {| error := err; translations := tr |}
                        = Unreadable
                        ∨ true = true
                          ∧ (JsonObject {| error := err; translations := tr |}
                             = NotJson
                             ∨ JsonObject {| error := err; translations := tr |}
                               = JsonNull)))
      by (by intros [?|[_ [?|?]]]).
    destruct err; [split; [by intros (e & ?)|by intros [_ ?]]|].
    destruct tr as [[|e es]|]; try (split; [by intros (e' & ?)|by intros [_ ?]]).
    destruct (falsy _); [split; [by intros (e' & ?)|by intros [_ ?]]|].
    destruct (len text >? 4500)%Z; (split; [by intros (e' & ?)|by intros [_ ?]]).
  - split; [intros _; split; [done|by left] | by eexists].
Qed.

End RouteMore.

(** ** More on the hook *)

Module HookMore.
Import JS Eff JSFacts EffTactics.
Import Hook Observe.

Local Opaque lit Route.LANGUAGE_NAMES Route.unavailable_note.

(** The answers of the route, by their form. *)
Lemma route_answer_forms env text src tgt :
  ∃ r w, Route.POST env (request text src tgt) Route.fresh = (Return r, w)
         ∧ (r = Route.SERVICE_ERROR ∨ r = Route.MISSING_FIELDS
            ∨ r = Route.degraded_response text tgt
            ∨ (r = Route.noop_response text ∧ text ≠ [])
            ∨ (∃ t ms, t ≠ [] ∧ r = Route.google_response t ms)
            ∨ (∃ t ms, t ≠ [] ∧ r = Route.cloud_fallback_response t ms)).
Proof.
  destruct (RouteMore.complete_or_not
              {| Route.text := Some text; Route.sourceLang := Some src;
                 Route.targetLang := Some tgt |})
    as [Hi|(text' & src' & tgt' & [= <- <- <-] & Ht & Hs & Hg)].
  { eexists _, _. split; [by apply RouteMore.POST_incomplete|]. by right; left. }
  destruct (decide (src = tgt)) as [->|Hne].
  { eexists _, _. split; [by apply RouteMore.POST_same_codes|].
    by right; right; right; left. }
  destruct (RouteMore.chain_result env text src tgt) as (r & w & E & _ & Hr); [done|].
  exists r, w. split; [done|].
  destruct Hr as [->|[->|[(g & ms & _ & Hgne & -> & _)
                         |(c & ms & _ & _ & Hcne & _ & _ & ->)]]].
  - by left.
  - by right; right; left.
  - right; right; right; right; left. by eexists _, _.
  - right; right; right; right; right. by eexists _, _.
Qed.

(** On a 2xx answer the hook leaves the error flag cleared, whatever an
    earlier call left there: it returns the text when the answer is the
    degraded one or has no [translatedText], and the [translatedText]
    otherwise. *)
Theorem translate_on_success server text src tgt st status data :
  trim text ≠ [] →
  server {| Route.text := Some text; Route.sourceLang := Some src;
            Route.targetLang := Some tgt |}
  = Responds status (JsonObject data) →
  ok status = true →
  let r := translate server text src tgt st in
  let degraded := Route.isFallback data = Some true
                  ∧ Route.p_source data = Some (lit "none") in
  error r.2 = None
  ∧ isTranslating r.2 = false
  ∧ (degraded → r.1 = Return text)
  ∧ (¬ degraded →
     ∀ t, Route.translatedText data = Some t → t ≠ [] → r.1 = Return t)
  ∧ (Route.translatedText data = None ∨ Route.translatedText data = Some [] →
     r.1 = Return text).
Proof.
  intros Hblank Hserver Hok. simpl.
  rewrite HookFacts.translate_sends by done. simpl. rewrite Hserver.
  unfold translate_resume. eff. simpl. rewrite Hok. simpl.
  destruct (bool_decide (Route.isFallback data = Some true)
            && bool_decide (Route.p_source data = Some (lit "none"))) eqn:Hd; simpl.
  - apply andb_true_iff in Hd as [H1 H2].
    apply bool_decide_eq_true in H1, H2.
    split; [done|]. split; [done|]. split; [done|]. split; [by intros []|].
    done.
  - assert (Hnd : ¬ (Route.isFallback data = Some true
                     ∧ Route.p_source data = Some (lit "none"))).
    { intros [H1 H2]. rewrite !bool_decide_eq_true_2 in Hd by done. done. }
    destruct (truthy_opt (Route.translatedText data)) eqn:Ht; simpl.
    + apply truthy_opt_spec in Ht as (t & Ht & Hne). rewrite Ht. simpl.
      split; [done|]. split; [done|]. split; [done|].
      split; [by intros _ t' [= <-]|]. by intros [|[= ->]].
    + apply truthy_opt_false in Ht.
      split; [done|]. split; [done|]. split; [done|].
      split; [|done]. intros _ t Ht' Hne. destruct Ht as [Ht|Ht]; congruence.
Qed.

Lemma translate_on_success_witness :
  let server := λ _ : Route.TranslateRequest,
    Responds 200 (JsonObject (Route.payload (Route.google_response (lit "namaste") 5))) in
  let st := {| isTranslating := false; error := Some FAILED; requests := [] |} in
  let r := translate server Scenario.hello (lit "en") (lit "hi") st in
  error r.2 = None ∧ isTranslating r.2 = false ∧ r.1 = Return (lit "namaste").
Proof.
  destruct (translate_on_success
              (λ _, Responds 200 (JsonObject (Route.payload
                                    (Route.google_response (lit "namaste") 5))))
              Scenario.hello (lit "en") (lit "hi")
              {| isTranslating := false; error := Some FAILED; requests := [] |}
              200 (Route.payload (Route.google_response (lit "namaste") 5)))
    as (H1 & H2 & _ & H4 & _).
  - vm_compute. discriminate.
  - reflexivity.
  - reflexivity.
  - split; [exact H1|]. split; [exact H2|].
    apply H4; [|reflexivity|vm_compute; discriminate].
    intros [H _]. discriminate.
Defined.

(** The hook over the route.  For a text that is not blank, the hook
    returns the [translatedText] of the route's answer, with the error flag
    cleared, exactly when the route answers 200; for every other answer
    (400, 500, 503) it returns the input text and sets the error flag.  The
    text of the 500 answer is never handed to the caller. *)
Theorem hook_over_route env text src tgt st :
  trim text ≠ [] →
  ∃ v r w,
    Route.POST env (request text src tgt) Route.fresh = (Return r, w)
    ∧ (translate (route_server env) text src tgt st).1 = Return v
    ∧ (Route.status r = 200%Z →
       Route.translatedText (Route.payload r) = Some v
       ∧ error (translate (route_server env) text src tgt st).2 = None)
    ∧ (Route.status r ≠ 200%Z →
       v = text
       ∧ error (translate (route_server env) text src tgt st).2 = Some FAILED).
Proof.
  intros Hblank.
  destruct (route_answer_forms env text src tgt) as (r & w & E & Hforms).
  rewrite HookFacts.translate_sends by done. simpl.
  assert (Hserver :
    route_server env {| Route.text := Some text; Route.sourceLang := Some src;
                        Route.targetLang := Some tgt |}
    = Responds (Route.status r) (JsonObject (Route.payload r))).
  { unfold route_server. unfold request in E. by rewrite E. }
  rewrite Hserver.
  destruct Hforms as [->|[->|[->|[[-> Ht]|[(t & ms & Ht & ->)|(t & ms & Ht & ->)]]]]].
  - eexists text, _, w. split; [exact E|].
    rewrite HookFacts.translate_resume_failure by by left. by repeat split.
  - eexists text, _, w. split; [exact E|].
    rewrite HookFacts.translate_resume_failure by by left. by repeat split.
  - eexists text, _, w. split; [exact E|].
    rewrite HookFacts.translate_resume_failure by by left. by repeat split.
  - eexists text, _, w. split; [exact E|].
    unfold translate_resume. eff. simpl.
    apply falsy_false in Ht. unfold truthy_opt. simpl. rewrite Ht. simpl.
    by repeat split.
  - eexists t, _, w. split; [exact E|].
    unfold translate_resume. eff. simpl.
    apply falsy_false in Ht. unfold truthy_opt. simpl. rewrite Ht. simpl.
    by repeat split.
  - eexists t, _, w. split; [exact E|].
    unfold translate_resume. eff. simpl.
    apply falsy_false in Ht. unfold truthy_opt. simpl. rewrite Ht. simpl.
    by repeat split.
Qed.

Lemma hook_over_route_witness :
  ∃ v r w,
    Route.POST Scenario.echoing (request Scenario.hello (lit "en") (lit "hi"))
      Route.fresh = (Return r, w)
    ∧ (translate (route_server Scenario.echoing) Scenario.hello
         (lit "en") (lit "hi") initial).1 = Return v
    ∧ (Route.status r = 200%Z →
       Route.translatedText (Route.payload r) = Some v
       ∧ error (translate (route_server Scenario.echoing) Scenario.hello
                  (lit "en") (lit "hi") initial).2 = None)
    ∧ (Route.status r ≠ 200%Z →
       v = Scenario.hello
       ∧ error (translate (route_server Scenario.echoing) Scenario.hello
                  (lit "en") (lit "hi") initial).2 = Some FAILED).
Proof.
  apply (hook_over_route Scenario.echoing Scenario.hello (lit "en") (lit "hi")
           initial).
  vm_compute. discriminate.
Defined.

End HookMore.

(** ** The IndicTrans2 variant of the translate route *)

Module CloudRouteFacts.
Import JS Eff JSFacts EffTactics.
Import CloudRoute.

Local Opaque LANGUAGE_NAMES langCodeMap CLOUD_TRUNCATION_NOTE lit slice0 Z.gtb
  DEFAULT_SERVICE_URL.

Ltac eff' := unfold CloudRoute.fetch in *; eff.

(** [translateWithCloudAPI] never throws, sends at most one request, to
    MyMemory, and does not read the clock. *)
Lemma cloud_returns env text src tgt w :
  ∃ r w', translateWithCloudAPI env text src tgt w = (Return r, w')
          ∧ clock_reads w' = clock_reads w
          ∧ (calls w' = calls w ∨ ∃ q, calls w' = calls w ++ [CallCloud q]).
Proof.
  unfold translateWithCloudAPI. eff'.
  destruct (negb (well_formed _)); simpl; [eexists _, _; by eauto|].
  unfold send. simpl.
  destruct (mymemory env _) as [|st body]; simpl; [eexists _, _; by eauto|].
  destruct (negb (ok st)); [eexists _, _; by eauto|].
  destruct body as [| |data|]; simpl; try (eexists _, _; by eauto).
  destruct (bool_decide _ && truthy_opt _); [|eexists _, _; by eauto].
  destruct (len text >? 500)%Z; eexists _, _; by eauto.
Qed.

(** The block of the service never throws; it sends its one request only
    when a remote service is configured, and does not read the clock. *)
Lemma try_service_returns env text src tgt w :
  ∃ r w', try_service env text src tgt w = (Return r, w')
          ∧ clock_reads w' = clock_reads w
          ∧ (usePythonService env = false → r = None ∧ w' = w)
          ∧ (∀ resp, r = Some resp → ∃ data, resp = indictrans2_response data)
          ∧ (calls w' = calls w ∨ ∃ q, calls w' = calls w ++ [CallService q]).
Proof.
  unfold try_service.
  destruct (usePythonService env).
  2:{ eexists _, _. split; [done|]. split; [done|]. split; [done|].
      split; [done|]. by left. }
  eff'. unfold send. simpl.
  destruct (indictrans env _) as [|st body]; simpl.
  { eexists _, _. split; [done|]. split; [done|]. split; [done|].
    split; [done|]. right. by eexists. }
  destruct (ok st); simpl.
  2:{ eexists _, _. split; [done|]. split; [done|]. split; [done|].
      split; [done|]. right. by eexists. }
  destruct body as [| |data|]; simpl;
    (eexists _, _; split; [done|]; split; [done|]; split; [done|];
     split; [|right; by eexists]).
  - done.
  - done.
  - intros resp [= <-]. by eexists.
  - done.
Qed.

(** The block of the cloud never throws; an answer it gives carries a
    translation that is neither empty nor the text. *)
Lemma try_cloud_returns env text src tgt w :
  ∃ r w', try_cloud env text src tgt w = (Return r, w')
          ∧ (∀ resp, r = Some resp →
               ∃ c ms, src = lit "en" ∧ in_LANGUAGE_NAMES tgt = true
                       ∧ c ≠ [] ∧ c ≠ text ∧ resp = cloud_response c ms)
          ∧ (calls w' = calls w ∨ ∃ q, calls w' = calls w ++ [CallCloud q]).
Proof.
  unfold try_cloud.
  destruct (eqb src (lit "en") && in_LANGUAGE_NAMES tgt) eqn:Hel.
  2:{ eexists _, _. split; [done|]. split; [done|]. by left. }
  apply andb_true_iff in Hel as [He Hin]. apply eqb_eq in He.
  unfold Date_now. eff. simpl.
  match goal with |- context [translateWithCloudAPI env text src tgt ?s] =>
    destruct (cloud_returns env text src tgt s) as (c & w' & -> & Hclk & Hcalls) end.
  simpl in Hcalls.
  destruct (truthy_opt c && negb (eqb (default [] c) text)) eqn:Hc.
  - apply andb_true_iff in Hc as [Htc Hnt].
    apply truthy_opt_spec in Htc as (t & -> & Hne). simpl in *.
    apply negb_true_iff, eqb_neq in Hnt.
    eexists _, _. split; [done|]. split; [|done].
    intros resp [= <-]. by eexists _, _.
  - eexists _, _. split; [done|]. split; [done|]. done.
Qed.

Lemma cloud_POST_incomplete env body w :
  ObserveRoute.incomplete body →
  POST env (JsonObject body) w = (Return Route.MISSING_FIELDS, w).
Proof.
  intros Hinc. unfold ObserveRoute.incomplete in Hinc.
  unfold POST. eff'. simpl. by rewrite Hinc.
Qed.

Lemma getFallbackTranslation_text text src tgt :
  getFallbackTranslation text src tgt = text.
Proof. unfold getFallbackTranslation. by destruct (eqb src tgt). Qed.

(** The answer to a request with its three fields, by cases. *)
Lemma POST_complete env text src tgt :
  text ≠ [] → src ≠ [] → tgt ≠ [] →
  ∃ r w, POST env (Observe.request text src tgt) fresh = (Return r, w)
         ∧ (usePythonService env = false → ¬ service_attempted w)
         ∧ ((∃ data, usePythonService env = true
                     ∧ r = indictrans2_response data)
            ∨ (∃ c ms, src = lit "en" ∧ in_LANGUAGE_NAMES tgt = true
                       ∧ c ≠ [] ∧ c ≠ text ∧ r = cloud_response c ms)
            ∨ r = fallback_response text).
Proof.
  intros Ht Hs Hg.
  unfold POST, Observe.request. eff. simpl.
  apply falsy_false in Ht, Hs, Hg. rewrite Ht, Hs, Hg. simpl.
  rewrite getFallbackTranslation_text.
  destruct (try_service_returns env text src tgt fresh)
    as (r1 & w1 & -> & _ & Hoff & Hr1 & Hc1).
  assert (Hsv : ∀ wx, (calls wx = calls w1 ∨ ∃ q, calls wx = calls w1 ++ [CallCloud q]) →
                      usePythonService env = false → ¬ service_attempted wx).
  { intros wx Hwx Hu (c & Hc & Hs'). destruct (Hoff Hu) as [_ ->].
    destruct Hwx as [E|(q & E)]; rewrite E in Hc; simpl in Hc.
    - by apply elem_of_nil in Hc.
    - apply list_elem_of_singleton in Hc. by subst c. }
  destruct r1 as [resp|].
  { destruct (Hr1 resp eq_refl) as (data & ->).
    eexists _, _. split; [done|]. split.
    - intros Hu. by destruct (Hoff Hu).
    - left. exists data. split; [|done].
      destruct (usePythonService env); [done|]. by destruct Hoff. }
  destruct (try_cloud_returns env text src tgt w1) as (r2 & w2 & -> & Hr2 & Hc2).
  destruct r2 as [resp|].
  - destruct (Hr2 resp eq_refl) as (c & ms & ? & ? & ? & ? & ->).
    eexists _, _. split; [done|]. split; [by apply Hsv|].
    right; left. by eexists _, _.
  - eexists _, _. split; [done|]. split; [by apply Hsv|]. by right; right.
Qed.

(** With the default URL, or any URL that contains ["127.0.0.1"] or
    ["localhost"], the IndicTrans2 service is never contacted, whatever the
    request. *)
Theorem local_service_is_not_called env req :
  TRANSLATION_SERVICE_URL_var env = None
  ∨ TRANSLATION_SERVICE_URL_var env = Some []
  ∨ includes (lit "127.0.0.1") (TRANSLATION_SERVICE_URL env) = true
  ∨ includes (lit "localhost") (TRANSLATION_SERVICE_URL env) = true →
  usePythonService env = false
  ∧ ¬ service_attempted (POST env req fresh).2.
Proof.
  intros Hurl.
  assert (Hu : usePythonService env = false).
  { unfold usePythonService.
    destruct Hurl as [Hv|[Hv|[Hi|Hi]]].
    - unfold TRANSLATION_SERVICE_URL. rewrite Hv. by vm_compute.
    - unfold TRANSLATION_SERVICE_URL. rewrite Hv. by vm_compute.
    - rewrite Hi. simpl. by rewrite andb_false_r.
    - rewrite Hi. simpl. by rewrite andb_false_r. }
  split; [done|].
  assert (Hfresh : ¬ service_attempted fresh).
  { intros (c & Hc & _). by apply elem_of_nil in Hc. }
  destruct req as [| |body|]; [done|done| |done].
  destruct (RouteMore.complete_or_not body)
    as [Hi|(text & src & tgt & -> & Ht & Hs & Hg)].
  { by rewrite cloud_POST_incomplete. }
  destruct (POST_complete env text src tgt) as (r & w & E & Hw & _); try done.
  unfold Observe.request in E. rewrite E. by apply Hw.
Qed.

Lemma local_service_is_not_called_witness :
  usePythonService nothing_configured = false
  ∧ ¬ service_attempted
        (POST nothing_configured
           (Observe.request Scenario.hello (lit "en") (lit "hi")) fresh).2.
Proof.
  apply (local_service_is_not_called nothing_configured). by left.
Defined.

(** A request whose body is a JSON object with strings for its three
    fields, or without some of them, is never answered 500, whatever the
    strings are and whatever the service and MyMemory do: every failure
    of theirs is caught where it happens.  The answer is 400 for an
    incomplete body and 200 otherwise. *)
Theorem string_fields_are_never_answered_500 env body :
  ∃ r w, POST env (JsonObject body) fresh = (Return r, w)
         ∧ (ObserveRoute.incomplete body → Route.status r = 400%Z)
         ∧ (¬ ObserveRoute.incomplete body → Route.status r = 200%Z).
Proof.
  destruct (RouteMore.complete_or_not body)
    as [Hi|(text & src & tgt & -> & Ht & Hs & Hg)].
  { eexists _, _. split; [by apply cloud_POST_incomplete|]. split; [done|].
    by intros []. }
  destruct (POST_complete env text src tgt) as (r & w & E & _ & Hr); try done.
  exists r, w. split; [exact E|].
  assert (Hcomplete : ¬ ObserveRoute.incomplete
                        {| Route.text := Some text; Route.sourceLang := Some src;
                           Route.targetLang := Some tgt |}).
  { unfold ObserveRoute.incomplete. simpl.
    apply falsy_false in Ht, Hs, Hg. by rewrite Ht, Hs, Hg. }
  split; [done|]. intros _.
  destruct Hr as [(data & _ & ->)|[(c & ms & _ & _ & _ & _ & ->)| ->]]; done.
Qed.

(** The fallback answer of this variant has status 200.  When the route
    gives it, the hook reads the body, returns the text and leaves the error
    flag cleared; the session then displays the text followed by the note
    that the translation service is not available. *)
Theorem fallback_is_displayed_with_note env text src tgt st :
  trim text ≠ [] →
  (POST env (Observe.request text src tgt) fresh).1
  = Return (fallback_response text) →
  let request := {| Route.text := Some text; Route.sourceLang := Some src;
                    Route.targetLang := Some tgt |} in
  let r := Hook.translate (server env) text src tgt st in
  Route.status (fallback_response text) = 200%Z
  ∧ r.1 = Return text
  ∧ Hook.error r.2 = None
  ∧ Hook.isTranslating r.2 = false
  ∧ Session.rendering text tgt (server env request)
    = Narrative.unavailable_note text tgt.
Proof.
  intros Hblank Hfb. simpl.
  assert (Hserver :
    server env {| Route.text := Some text; Route.sourceLang := Some src;
                  Route.targetLang := Some tgt |}
    = Responds 200 (JsonObject (Route.payload (fallback_response text)))).
  { unfold server. unfold Observe.request in Hfb.
    destruct (POST env _ fresh) as [c w]. simpl in Hfb. by subst c. }
  rewrite HookFacts.translate_sends by done. simpl. rewrite Hserver.
  assert (Hres : ∀ h, Hook.translate_resume text
                   (Responds 200 (JsonObject (Route.payload (fallback_response text)))) h
                 = (Return text, {| Hook.isTranslating := false;
                                    Hook.error := Hook.error h;
                                    Hook.requests := Hook.requests h |})).
  { intros h. unfold Hook.translate_resume. eff. simpl.
    rewrite !bool_decide_eq_true_2 by done. done. }
  rewrite Hres. simpl. split; [done|]. split; [done|]. split; [done|].
  split; [done|].
  unfold Session.rendering, Session.hook_result. rewrite Hres. simpl.
  rewrite NarrativeFacts.displayed_cases. simpl. by rewrite eqb_refl.
Qed.

Lemma fallback_is_displayed_with_note_witness :
  let request := {| Route.text := Some Scenario.hello;
                    Route.sourceLang := Some (lit "en");
                    Route.targetLang := Some (lit "hi") |} in
  let r := Hook.translate (server nothing_configured) Scenario.hello
             (lit "en") (lit "hi") Hook.initial in
  Route.status (fallback_response Scenario.hello) = 200%Z
  ∧ r.1 = Return Scenario.hello
  ∧ Hook.error r.2 = None
  ∧ Hook.isTranslating r.2 = false
  ∧ Session.rendering Scenario.hello (lit "hi") (server nothing_configured request)
    = Narrative.unavailable_note Scenario.hello (lit "hi").
Proof.
  apply (fallback_is_displayed_with_note nothing_configured Scenario.hello
           (lit "en") (lit "hi") Hook.initial).
  - vm_compute. discriminate.
  - by vm_compute.
Defined.

(** *** What goes to MyMemory, and what comes back *)

Local Transparent langCodeMap.

(** What [langCodeMap[k] || k] is in the template of the URL: the code
    itself, for the two keys of the table as for every other code, except
    for a name inherited from [Object.prototype], which gives the text of
    the inherited value. *)
Lemma langCode_text (k : jsstring) :
  property_or (lookup_property langCodeMap k) k
  = if inherited k then builtin_text k else k.
Proof.
  unfold lookup_property, langCodeMap. simpl. rewrite !lookup_insert.
  destruct (decide (lit "or" = k)) as [<-|_]; [by vm_compute|].
  destruct (decide (lit "mni" = k)) as [<-|_]; [by vm_compute|].
  rewrite lookup_empty. by destruct (inherited k).
Qed.

Local Opaque langCodeMap.

Lemma sourceCode_text (src : jsstring) :
  (if eqb src (lit "en") then lit "en"
   else property_or (lookup_property langCodeMap src) src)
  = if inherited src then builtin_text src else src.
Proof.
  destruct (eqb src (lit "en")) eqn:E.
  - apply eqb_eq in E. subst src. by vm_compute.
  - apply langCode_text.
Qed.

(** The mapping of the codes changes no language code: a request that
    [translateWithCloudAPI] sends carries the text cut at 500 code units
    and the two codes as they were given.  The one exception is a code that
    is a name inherited from [Object.prototype], such as ["toString"]: in
    its place goes the text of the inherited value. *)
Theorem codes_sent_to_mymemory env text src tgt w :
  let code := λ k, if inherited k then builtin_text k else k in
  let sent := calls (translateWithCloudAPI env text src tgt w).2 in
  sent = calls w
  ∨ sent = calls w ++ [CallCloud {| Route.mm_q := if (len text >? 500)%Z
                                                  then slice0 500 text else text;
                                    Route.langpair := (code src, code tgt) |}].
Proof.
  simpl. unfold translateWithCloudAPI. eff'.
  rewrite sourceCode_text, langCode_text.
  destruct (negb (well_formed _)); simpl; [by left|].
  right. unfold send. simpl.
  destruct (mymemory env _) as [|st body]; simpl; [done|].
  destruct (negb (ok st)); [done|].
  destruct body as [| |data|]; simpl; try done.
  destruct (bool_decide _ && truthy_opt _); [|done].
  by destruct (len text >? 500)%Z.
Qed.

(** A translation that is the text itself counts as none.  When no remote
    service is configured and MyMemory gives back the text it was sent, the
    answer is the fallback answer. *)
Theorem echoed_text_is_no_translation env text tgt st data :
  usePythonService env = false →
  text ≠ [] → tgt ≠ [] → (len text ≤ 500)%Z →
  mymemory env {| Route.mm_q := text;
                  Route.langpair :=
                    (lit "en", if inherited tgt then builtin_text tgt else tgt) |}
  = Responds st (JsonObject data) →
  Route.responseData_translatedText data = Some text →
  (POST env (Observe.request text (lit "en") tgt) fresh).1
  = Return (fallback_response text).
Proof.
  intros Hu Ht Hg Hlen Hresp Hecho.
  assert (Hgt : (len text >? 500)%Z = false).
  { destruct (len text >? 500)%Z eqn:E; [|done]. apply gtb_gt in E. lia. }
  unfold POST, Observe.request. eff. simpl.
  apply falsy_false in Ht, Hg.
  assert (Hen : falsy (lit "en") = false) by by vm_compute.
  rewrite Ht, Hg, Hen. simpl.
  rewrite getFallbackTranslation_text.
  unfold try_service. rewrite Hu. simpl.
  unfold try_cloud.
  destruct (eqb (lit "en") (lit "en") && in_LANGUAGE_NAMES tgt); [|done].
  unfold Date_now. eff. simpl.
  unfold translateWithCloudAPI. eff'.
  rewrite sourceCode_text, langCode_text, Hgt.
  change (inherited (lit "en")) with false. cbv iota.
  destruct (negb (well_formed text)); simpl; [done|].
  rewrite Hresp. simpl.
  destruct (negb (ok st)); simpl; [done|].
  rewrite Hecho.
  destruct (bool_decide _ && truthy_opt _); simpl; [|done].
  rewrite eqb_refl. simpl. by rewrite andb_false_r.
Qed.

Lemma echoed_text_is_no_translation_witness :
  (POST parroting (Observe.request Scenario.hello (lit "en") (lit "hi")) fresh).1
  = Return (fallback_response Scenario.hello).
Proof.
  apply (echoed_text_is_no_translation parroting Scenario.hello (lit "hi") 200
           {| Route.responseStatus := Some 200%Z;
              Route.responseData_translatedText := Some Scenario.hello |}).
  - by vm_compute.
  - vm_compute. discriminate.
  - vm_compute. discriminate.
  - vm_compute. discriminate.
  - reflexivity.
  - reflexivity.
Defined.

End CloudRouteFacts.

(** ** Starting a monitor *)

Module MonitorFacts.
Import JS Eff JSFacts JSMore EffTactics.
Import Monitor.

Local Opaque lit.

Section WithData.
Context {Data : Type}.
Implicit Types (env : Env Data) (body : Body).

(** The proxy answers 400, and sends nothing to the monitoring service,
    when [keywords] is absent, is not an array, or is empty. *)
Theorem keywords_are_required env body sent :
  keywords body = None ∨ keywords body = Some [] →
  POST env (JsonObject body) sent
  = (Return {| status := 400;
               reply := ErrorReply (lit "Keywords array is required") |}, sent).
Proof.
  intros Hk. unfold POST. eff. simpl. by destruct Hk as [-> | ->].
Qed.

(** What the proxy sends for a non-empty array of keywords, and what it
    answers. *)
Lemma POST_forwards env body kws :
  keywords body = Some kws → kws ≠ [] →
  ∃ r forwarded,
    POST env (JsonObject body) [] = (Return r, [forwarded])
    ∧ f_keywords forwarded = kws
    ∧ truthy_interval (f_interval_seconds forwarded) = true
    ∧ (∀ v, interval_seconds body = Some v → truthy_interval v = true →
            f_interval_seconds forwarded = v)
    ∧ (interval_seconds body = None
       ∨ (∃ v, interval_seconds body = Some v ∧ truthy_interval v = false) →
       f_interval_seconds forwarded = Seconds 300)
    ∧ f_api_key forwarded
      = match OBSEI_API_KEY env with
        | Some [] | None => None
        | Some key => Some key
        end
    ∧ match start_monitor env forwarded with
      | Rejects => status r = 500%Z
      | Responds st Unreadable => status r = 500%Z
      | Responds st NotJson => status r = if ok st then 500%Z else 502%Z
      | Responds st JsonNull =>
          if ok st then status r = 200%Z ∧ reply r = DataReply None
          else status r = 502%Z
      | Responds st (JsonObject data) =>
          if ok st then status r = 200%Z ∧ reply r = DataReply (Some data)
          else status r = 502%Z
      end.
Proof.
  intros Hk Hne. unfold POST. eff. simpl. rewrite Hk.
  destruct kws as [|k kws']; [done|].
  set (forwarded := {| f_keywords := _; f_interval_seconds := _; f_api_key := _ |}).
  assert (Hint : truthy_interval (f_interval_seconds forwarded) = true
                 ∧ (∀ v, interval_seconds body = Some v →
                         truthy_interval v = true →
                         f_interval_seconds forwarded = v)
                 ∧ (interval_seconds body = None
                    ∨ (∃ v, interval_seconds body = Some v
                            ∧ truthy_interval v = false) →
                    f_interval_seconds forwarded = Seconds 300)).
  { subst forwarded. simpl. unfold interval_or_default.
    destruct (interval_seconds body) as [v|].
    - destruct (truthy_interval v) eqn:E.
      + split; [done|]. split; [by intros ? [= <-]|].
        intros [|(v' & [= <-] & E')]; [done|]. by rewrite E in E'.
      + split; [done|]. split; [|done]. intros v' [= <-] E'. by rewrite E in E'.
    - split; [done|]. split; [done|]. done. }
  assert (Hkey : f_api_key forwarded
                 = match OBSEI_API_KEY env with
                   | Some [] | None => None
                   | Some key => Some key
                   end).
  { subst forwarded. simpl. by destruct (OBSEI_API_KEY env) as [[|c key]|]. }
  destruct Hint as (H1 & H2 & H3).
  destruct (start_monitor env forwarded) as [|st [| |data|]] eqn:Hup; simpl;
    try destruct (ok st) eqn:Hok; simpl;
    (eexists _, forwarded; split; [reflexivity|];
     rewrite Hup, ?Hok; by repeat split).
Qed.

(** With a non-empty array of keywords the proxy sends one request: the
    keywords as they are, the value of [interval_seconds] as it is when it
    is truthy and 300 otherwise (so never 0), and the API key when one is
    configured.  It never throws.  It answers 500 when the request is
    rejected or the body of the answer cannot be read; otherwise 502 when
    the status is not 2xx, 200 with the body when the body is JSON, and 500
    when it is not. *)
Theorem monitor_is_forwarded env body kws :
  keywords body = Some kws → kws ≠ [] →
  ∃ r forwarded,
    POST env (JsonObject body) [] = (Return r, [forwarded])
    ∧ f_keywords forwarded = kws
    ∧ truthy_interval (f_interval_seconds forwarded) = true
    ∧ (∀ v, interval_seconds body = Some v → truthy_interval v = true →
            f_interval_seconds forwarded = v)
    ∧ (interval_seconds body = None
       ∨ (∃ v, interval_seconds body = Some v ∧ truthy_interval v = false) →
       f_interval_seconds forwarded = Seconds 300)
    ∧ f_api_key forwarded
      = match OBSEI_API_KEY env with
        | Some [] | None => None
        | Some key => Some key
        end
    ∧ match start_monitor env forwarded with
      | Rejects => status r = 500%Z
      | Responds st Unreadable => status r = 500%Z
      | Responds st NotJson => status r = if ok st then 500%Z else 502%Z
      | Responds st JsonNull =>
          if ok st then status r = 200%Z ∧ reply r = DataReply None
          else status r = 502%Z
      | Responds st (JsonObject data) =>
          if ok st then status r = 200%Z ∧ reply r = DataReply (Some data)
          else status r = 502%Z
      end.
Proof. apply POST_forwards. Qed.

End WithData.

Lemma keywords_are_required_witness :
  POST accepting (JsonObject {| client := Some (lit "Acme"); keywords := Some [];
                                interval_seconds := Some (Seconds 300) |}) []
  = (Return {| status := 400;
               reply := ErrorReply (lit "Keywords array is required") |}, []).
Proof. apply (keywords_are_required accepting). by right. Defined.

Lemma monitor_is_forwarded_witness :
  (∃ r forwarded,
     POST accepting (JsonObject {| client := Some (lit "Acme");
                                   keywords := Some [lit "outage"];
                                   interval_seconds := Some (Seconds 0) |}) []
     = (Return r, [forwarded])
     ∧ f_keywords forwarded = [lit "outage"]
     ∧ f_interval_seconds forwarded = Seconds 300
     ∧ status r = 200%Z)
  ∧ (∃ r forwarded,
       POST accepting (JsonObject {| client := None;
                                     keywords := Some [lit "outage"];
                                     interval_seconds :=
                                       Some (Other true (lit "null")) |}) []
       = (Return r, [forwarded])
       ∧ f_interval_seconds forwarded = Other true (lit "null")).
Proof.
  split.
  - destruct (monitor_is_forwarded accepting
                {| client := Some (lit "Acme"); keywords := Some [lit "outage"];
                   interval_seconds := Some (Seconds 0) |} [lit "outage"])
      as (r & forwarded & E & Hk & _ & _ & H300 & _ & Hst);
      [reflexivity | discriminate |].
    exists r, forwarded. split; [exact E|]. split; [exact Hk|].
    split; [apply H300; right; by eexists|].
    simpl in Hst. by destruct Hst.
  - destruct (monitor_is_forwarded accepting
                {| client := None; keywords := Some [lit "outage"];
                   interval_seconds := Some (Other true (lit "null")) |}
                [lit "outage"])
      as (r & forwarded & E & _ & _ & Hv & _);
      [reflexivity | discriminate |].
    exists r, forwarded. split; [exact E|]. by apply Hv.
Defined.

(** *** The lists of keywords and clients *)

Lemma tidy_snoc (l : list jsstring) (text : jsstring) :
  tidy l → trim text ≠ [] → trim text ∉ l → tidy (l ++ [trim text]).
Proof.
  intros [Hnd Hall] Hne Hnin. split.
  - apply NoDup_app. split; [done|]. split; [|apply NoDup_singleton].
    intros k Hk ->%list_elem_of_singleton. done.
  - intros k [Hk | ->%list_elem_of_singleton]%elem_of_app; [by apply Hall|].
    split; [apply trim_idempotent|done].
Qed.

Lemma tidy_without (l : list jsstring) (x : jsstring) :
  tidy l → tidy (without x l).
Proof.
  intros [Hnd Hall]. split; [by apply NoDup_filter|].
  intros k [_ Hk]%list_elem_of_filter. by apply Hall.
Qed.

Lemma tidy_initial : tidy (monitorKeywords initial).
Proof.
  split; [refine (bool_decide_unpack _ _); by vm_compute|].
  intros k Hk. simpl in Hk.
  repeat (apply elem_of_cons in Hk as [-> | Hk]); [by vm_compute..|].
  by apply elem_of_nil in Hk.
Qed.

Lemma consistent_initial : consistent initial.
Proof.
  split; [apply tidy_initial|]. split; [|by left].
  split; [apply NoDup_nil_2|]. by intros k Hk%elem_of_nil.
Qed.

Lemma adding_cases (text : jsstring) (l : list jsstring) :
  truthy (trim text) && negb (has (trim text) l) = true
  ↔ trim text ≠ [] ∧ trim text ∉ l.
Proof.
  unfold has. rewrite andb_true_iff, negb_true_iff, truthy_true,
    bool_decide_eq_false. done.
Qed.

Lemma step_consistent (st : Settings) (ev : Event) :
  consistent st → consistent (step st ev).
Proof.
  intros (Hk & Hc & Hsel). destruct ev as [text| |keyword|text| |client|position]; simpl.
  - done.
  - unfold handleAddKeyword.
    destruct (_ && _) eqn:E; [|done].
    apply adding_cases in E as [Hne Hnin]. simpl.
    split; [by apply tidy_snoc|]. done.
  - split; [by apply tidy_without|]. done.
  - done.
  - unfold handleAddClient.
    destruct (_ && _) eqn:E; [|done].
    apply adding_cases in E as [Hne Hnin]. simpl.
    split; [done|]. split; [by apply tidy_snoc|].
    right. apply elem_of_app. right. by apply list_elem_of_singleton.
  - unfold handleRemoveClient.
    destruct (eqb (monitorClient st) client) eqn:E; simpl.
    + split; [done|]. split; [by apply tidy_without|]. by left.
    + apply eqb_neq in E.
      split; [done|]. split; [by apply tidy_without|].
      destruct Hsel as [Hsel|Hsel]; [by left|].
      right. by apply list_elem_of_filter.
  - destruct (savedClients st !! position) as [client|] eqn:E; [|done].
    simpl. split; [done|]. split; [done|].
    right. by eapply list_elem_of_lookup_2.
Qed.

(** Whatever is typed, added, removed and clicked in the settings, no
    keyword and no client is listed twice, each is trimmed and not empty,
    and the selected client is one of the saved clients or none. *)
Theorem settings_stay_consistent (evs : list Event) :
  consistent (foldl step initial evs).
Proof.
  generalize consistent_initial. generalize initial.
  induction evs as [|ev evs IH]; intros st Hst; [done|].
  cbn [foldl]. apply IH. by apply step_consistent.
Qed.

(** A keyword that is added and then removed leaves the list as it was:
    for a new keyword that is not blank, and not listed yet once trimmed.
    It is added at the end of the list. *)
Theorem add_then_remove_keyword (st : Settings) :
  trim (newKeyword st) ≠ [] →
  trim (newKeyword st) ∉ monitorKeywords st →
  let st1 := handleAddKeyword st in
  trim (newKeyword st) ∈ monitorKeywords st1
  ∧ monitorKeywords st1 = monitorKeywords st ++ [trim (newKeyword st)]
  ∧ newKeyword st1 = []
  ∧ monitorKeywords (handleRemoveKeyword (trim (newKeyword st)) st1)
    = monitorKeywords st.
Proof.
  intros Hne Hnin. simpl. unfold handleAddKeyword.
  pose proof (proj2 (adding_cases (newKeyword st) (monitorKeywords st))
                (conj Hne Hnin)) as ->.
  simpl. split; [apply elem_of_app; right; by apply list_elem_of_singleton|].
  split; [done|]. split; [done|].
  unfold without. rewrite filter_app, filter_cons_False, filter_nil, app_nil_r
    by (intros H; by apply H).
  clear Hne. induction (monitorKeywords st) as [|k l IH]; [done|].
  apply not_elem_of_cons in Hnin as [Hk Hl].
  rewrite filter_cons_True by done. f_equal. by apply IH.
Qed.

Lemma add_then_remove_keyword_witness :
  monitorKeywords
    (handleRemoveKeyword (lit "recall")
       (handleAddKeyword (setNewKeyword (lit "  recall ") initial)))
  = monitorKeywords initial.
Proof.
  apply (add_then_remove_keyword (setNewKeyword (lit "  recall ") initial)).
  - by vm_compute.
  - refine (bool_decide_unpack _ _). by vm_compute.
Defined.

(** *** Starting the monitor from the page *)

Lemma start_without_client (st : Settings) :
  trim (monitorClient st) = [] →
  handleStartMonitor_start st
  = Returned (setIsStartingMonitor false
                (setIsStartingMonitor false
                   (alert (CROSS ++ lit " Please select or enter a client name")
                      (setIsStartingMonitor true st)))).
Proof.
  intros Hb. unfold handleStartMonitor_start. simpl.
  apply falsy_nil in Hb. by rewrite Hb.
Qed.

Lemma start_with_client (st : Settings) :
  trim (monitorClient st) ≠ [] →
  handleStartMonitor_start st
  = Awaiting {| client := Some (monitorClient st);
                keywords := Some (monitorKeywords st);
                interval_seconds := Some (Seconds 300) |}
             (setIsStartingMonitor true st).
Proof.
  intros Hb. unfold handleStartMonitor_start. simpl.
  apply falsy_false in Hb. by rewrite Hb.
Qed.

(** What the rest of [handleStartMonitor] does with the settings, by the
    answer to its request. *)
Lemma resume_fields {Data} error_message request (outcome : fetched Data) st :
  let st' := (handleStartMonitor_resume error_message request outcome st).2 in
  (handleStartMonitor_resume error_message request outcome st).1 = Return tt
  ∧ isStartingMonitor st' = false
  ∧ monitorKeywords st' = monitorKeywords st
  ∧ newKeyword st' = newKeyword st
  ∧ savedClients st' = savedClients st
  ∧ newClient st' = newClient st
  ∧ monitorClient st' = monitorClient st
  ∧ match outcome with
    | Rejects =>
        showMonitorSettings st' = showMonitorSettings st
        ∧ alerted st' = alerted st ++
            [CROSS ++ lit " Error: "
             ++ default (lit "Unknown error") (error_message FetchError)]
    | Responds status _ =>
        if ok status
        then showMonitorSettings st' = false
             ∧ alerted st' = alerted st ++
                 [TICK ++ lit " Monitor started for "
                  ++ default [] (client request) ++ lit " with keywords: "
                  ++ join (lit ", ") (default [] (keywords request))]
        else showMonitorSettings st' = showMonitorSettings st
             ∧ alerted st' = alerted st ++ [CROSS ++ lit " Failed to start monitor"]
    end.
Proof.
  simpl. unfold handleStartMonitor_resume. eff.
  destruct outcome as [|status body]; simpl; [done|].
  destruct (ok status); simpl; done.
Qed.

(** A click on the start button always ends with the busy flag cleared and
    one more alert, and changes neither the keywords nor the clients.  It
    sends no request when the selected client is blank, and otherwise one
    request with that client, the keywords and an interval of 300 seconds.
    The settings are closed only by an answer with a 2xx status. *)
Theorem start_monitor_settles {Data} error_message
    (server : Body → fetched Data) (st : Settings) :
  let request := {| client := Some (monitorClient st);
                    keywords := Some (monitorKeywords st);
                    interval_seconds := Some (Seconds 300) |} in
  let st' := (handleStartMonitor error_message server st).1 in
  let sent := (handleStartMonitor error_message server st).2 in
  isStartingMonitor st' = false
  ∧ monitorKeywords st' = monitorKeywords st
  ∧ savedClients st' = savedClients st
  ∧ monitorClient st' = monitorClient st
  ∧ (∃ message, alerted st' = alerted st ++ [message])
  ∧ sent = (if falsy (trim (monitorClient st)) then [] else [request])
  ∧ showMonitorSettings st'
    = match server request with
      | Responds status _ =>
          if negb (falsy (trim (monitorClient st))) && ok status
          then false else showMonitorSettings st
      | Rejects => showMonitorSettings st
      end.
Proof.
  simpl. unfold handleStartMonitor.
  destruct (falsy (trim (monitorClient st))) eqn:Hb.
  - apply falsy_nil in Hb. rewrite (start_without_client st Hb). simpl.
    repeat split; try done; [by eexists|].
    by destruct (server _).
  - apply falsy_false in Hb. rewrite (start_with_client st Hb).
    match goal with |- context [handleStartMonitor_resume ?e ?r ?o ?s] =>
      pose proof (resume_fields e r o s) as H;
      cbv zeta in H; destruct (handleStartMonitor_resume e r o s) as [c st'] end.
    simpl in H. destruct H as (_ & H1 & H2 & _ & H3 & _ & H4 & H5). simpl.
    repeat split; try done.
    + destruct (server _) as [|status body]; [destruct H5 as [_ ->]; by eexists|].
      destruct (ok status); destruct H5 as [_ ->]; by eexists.
    + destruct (server _) as [|status body]; [by destruct H5|].
      simpl. destruct (ok status); by destruct H5.
Qed.

(** From the page and through the proxy: when the button is enabled and a
    client is selected, the monitoring service receives one request, with
    the keywords of the page and an interval of 300 seconds.  The settings
    close, with the alert of success, exactly when the service answers 2xx
    with a JSON body; in every other case the alert is that the monitor
    failed to start, never the alert of an error. *)
Theorem started_from_the_page {Data} (env : Env Data) error_message (st : Settings) :
  start_disabled st = false →
  trim (monitorClient st) ≠ [] →
  let answer := handleStartMonitor error_message (λ request, (proxy env request).1) st in
  let st' := answer.1 in
  ∃ forwarded,
    (∀ request, request ∈ answer.2 → (proxy env request).2 = [forwarded])
    ∧ answer.2 ≠ []
    ∧ f_keywords forwarded = monitorKeywords st
    ∧ f_interval_seconds forwarded = Seconds 300
    ∧ match start_monitor env forwarded with
      | Responds status (JsonNull | JsonObject _) =>
          if ok status
          then showMonitorSettings st' = false
               ∧ alerted st' = alerted st ++
                   [TICK ++ lit " Monitor started for " ++ monitorClient st
                    ++ lit " with keywords: "
                    ++ join (lit ", ") (monitorKeywords st)]
          else showMonitorSettings st' = showMonitorSettings st
               ∧ alerted st' = alerted st ++ [CROSS ++ lit " Failed to start monitor"]
      | _ => showMonitorSettings st' = showMonitorSettings st
             ∧ alerted st' = alerted st ++ [CROSS ++ lit " Failed to start monitor"]
      end.
Proof.
  intros Hen Hb. simpl.
  apply orb_false_iff in Hen as [_ Hlen]. apply Nat.eqb_neq in Hlen.
  assert (Hne : monitorKeywords st ≠ []) by (by destruct (monitorKeywords st)).
  set (request := {| client := Some (monitorClient st);
                     keywords := Some (monitorKeywords st);
                     interval_seconds := Some (Seconds 300) |}).
  destruct (POST_forwards env request (monitorKeywords st) eq_refl Hne)
    as (r & forwarded & E & Hk & _ & H300 & _ & _ & Hst).
  specialize (H300 (Seconds 300) eq_refl eq_refl).
  exists forwarded.
  unfold handleStartMonitor. rewrite (start_with_client st Hb). fold request. simpl.
  assert (Hp : proxy env request
               = (Responds (status r) (JsonObject (reply r)), [forwarded])).
  { unfold proxy. by rewrite E. }
  split; [by intros ? ->%list_elem_of_singleton; rewrite Hp|].
  split; [done|]. split; [done|]. split; [done|].
  rewrite Hp. simpl.
  match goal with |- context [handleStartMonitor_resume ?e ?r ?o ?s] =>
    pose proof (resume_fields e r o s) as H;
    cbv zeta in H; destruct (handleStartMonitor_resume e r o s) as [c st'] end.
  simpl in H. destruct H as (_ & _ & _ & _ & _ & _ & _ & H5). simpl.
  destruct (start_monitor env forwarded) as [|status [| |data|]].
  - rewrite Hst in H5. done.
  - destruct (ok status); rewrite Hst in H5; done.
  - destruct (ok status); [destruct Hst as [Hst _]|]; rewrite Hst in H5; done.
  - destruct (ok status); [destruct Hst as [Hst _]|]; rewrite Hst in H5; done.
  - rewrite Hst in H5. done.
Qed.

Lemma started_from_the_page_witness :
  let st := setMonitorClient (lit "Acme") initial in
  let answer := handleStartMonitor (λ _, None)
                  (λ request, (proxy accepting request).1) st in
  showMonitorSettings answer.1 = false ∧ length (alerted answer.1) = 1.
Proof.
  destruct (started_from_the_page accepting (λ _, None)
              (setMonitorClient (lit "Acme") initial))
    as (forwarded & _ & _ & _ & _ & H); [reflexivity | by vm_compute |].
  simpl in H. destruct H as [H1 H2]. split; [exact H1|].
  rewrite H2. reflexivity.
Defined.

End MonitorFacts.

(** ** More on the narrative page *)

Module NarrativeMore.
Import JS Eff JSFacts EffTactics.
Import Narrative Session Picker NarrativeFacts.

Local Opaque lit RULE PLACEHOLDER_MARK NOTE_MARK unavailable_note error_note
  slice0 Z.gtb Route.GOOGLE_TRUNCATION_NOTE.

(** What the hook hands over for an answer: the translation of a 2xx
    answer that is not marked as a fallback, when it is not empty, and the
    text in every other case. *)
Lemma hook_result_cases text outcome :
  hook_result text outcome = Return text
  ∨ ∃ status data t,
      outcome = Responds status (JsonObject data)
      ∧ ok status = true
      ∧ Route.translatedText data = Some t ∧ t ≠ []
      ∧ hook_result text outcome = Return t.
Proof.
  unfold hook_result, Hook.translate_resume. eff.
  destruct outcome as [|status body]; simpl; [by left|].
  destruct (ok status) eqn:Hok; simpl; [|by left].
  destruct body as [| |data|]; simpl; [by left|by left| |by left].
  destruct (bool_decide _ && bool_decide _); simpl; [by left|].
  destruct (truthy_opt (Route.translatedText data)) eqn:Ht; simpl; [|by left].
  apply truthy_opt_spec in Ht as (t & Ht & Hne).
  right. exists status, data, t. rewrite Ht. done.
Qed.

(** Whatever the server answers, the page displays either the translation
    it received, which is then not empty and differs from the original, or
    the original followed by the note that the service is not available.
    The note of a service error is for a rejection of the hook, which no
    answer produces. *)
Theorem rendering_cases text targetLang outcome :
  (∀ e, hook_result text outcome ≠ Throw e)
  ∧ (rendering text targetLang outcome = Narrative.unavailable_note text targetLang
     ∨ ∃ status data t,
         outcome = Responds status (JsonObject data)
         ∧ ok status = true
         ∧ Route.translatedText data = Some t
         ∧ t ≠ [] ∧ t ≠ text
         ∧ rendering text targetLang outcome = t).
Proof.
  unfold rendering. rewrite displayed_cases. simpl.
  destruct (hook_result_cases text outcome)
    as [E|(status & data & t & Ho & Hok & Ht & Hne & E)]; rewrite E.
  - split; [done|]. left. by rewrite eqb_refl.
  - split; [done|].
    destruct (eqb t text) eqn:Heq; simpl; [by left|].
    apply falsy_false in Hne as Hf. rewrite Hf.
    apply eqb_neq in Heq. right. by exists status, data, t.
Qed.

(** An original that is blank, or that carries one of the two marks, is
    not sent for translation: under the guard the effect displays it as it
    is when it carries a mark, and with the note that the service is not
    available when it is blank. *)
Theorem untranslatable_original_is_not_sent st :
  guard st → ¬ translatable (originalGeneratedText st) →
  let st' := effect st in
  let original := originalGeneratedText st in
  network_calls st' = network_calls st
  ∧ inflight st' = inflight st
  ∧ lastTranslatedLangRef st' = selectedLanguage st
  ∧ generatedText st'
    = if includes PLACEHOLDER_MARK original || includes NOTE_MARK original
      then original
      else Narrative.unavailable_note original (selectedLanguage st).
Proof.
  intros Hg Hnt. simpl. rewrite effect_guarded by done.
  destruct Hg as (Ho & Hs & Hen & _).
  unfold handleTranslate_start.
  apply falsy_false in Ho, Hs. apply eqb_neq in Hen. rewrite Ho, Hs, Hen. simpl.
  destruct (includes PLACEHOLDER_MARK (originalGeneratedText st)
            || includes NOTE_MARK (originalGeneratedText st)) eqn:Hm.
  - unfold translateContent_resume.
    by destruct (includes NOTE_MARK (originalGeneratedText st)).
  - assert (Hb : falsy (trim (originalGeneratedText st)) = true).
    { destruct (falsy (trim (originalGeneratedText st))) eqn:Hb; [done|].
      exfalso. apply Hnt. apply orb_false_iff in Hm as [Hp Hn].
      apply falsy_false in Hb. done. }
    unfold Hook.translate_start. rewrite Hb.
    match goal with |- context [settle ?p ?c ?s] =>
      destruct (settle_fields p c s) as (-> & _ & _ & -> & Hh & -> & _) end.
    unfold network_calls. rewrite Hh, displayed_cases. simpl.
    by rewrite orb_true_r.
Qed.

Lemma untranslatable_original_is_not_sent_witness :
  let st := setSelectedLanguage (lit "hi") (generated (lit "   ")) in
  network_calls (effect st) = 0
  ∧ generatedText (effect st)
    = Narrative.unavailable_note (lit "   ") (lit "hi").
Proof.
  destruct (untranslatable_original_is_not_sent
              (setSelectedLanguage (lit "hi") (generated (lit "   "))))
    as (H1 & _ & _ & H2).
  - by vm_compute.
  - intros (Hb & _). by vm_compute in Hb.
  - split; [exact H1|]. rewrite H2. by vm_compute.
Defined.

(** *** The languages on offer *)

Lemma supported_codes_are_mapped :
  Forall (λ lang : jsstring * jsstring,
            fst lang ≠ lit "en" ∧ fst lang ≠ []
            ∧ (∃ target, Route.GOOGLE_LANGUAGE_CODES !! fst lang = Some target
                         ∧ target ≠ [])
            ∧ Route.in_LANGUAGE_NAMES (fst lang) = true
            ∧ CloudRoute.in_LANGUAGE_NAMES (fst lang) = true
            ∧ langName (fst lang) = snd lang)
         supportedLanguages.
Proof.
  unfold supportedLanguages.
  repeat (apply Forall_cons; split;
          [split; [by vm_compute|]; split; [by vm_compute|];
           split; [eexists; split; [by vm_compute|by vm_compute]|];
           split; [by vm_compute|]; split; by vm_compute|]).
  apply Forall_nil_2.
Qed.

(** Every language that the page offers, for whatever region, is one that
    the translate routes know: it is not English, it has a Google code, it
    is eligible for the MyMemory fallback, and the cloud route lists it.
    With an API key the Google route therefore sends the text to Google,
    under that code. *)
Theorem offered_languages_are_supported region lang :
  lang ∈ availableLanguages region →
  fst lang ≠ lit "en"
  ∧ Route.in_LANGUAGE_NAMES (fst lang) = true
  ∧ CloudRoute.in_LANGUAGE_NAMES (fst lang) = true
  ∧ langName (fst lang) = snd lang
  ∧ ∃ target,
      Route.GOOGLE_LANGUAGE_CODES !! fst lang = Some target
      ∧ ∀ env text,
          truthy_opt (Route.GOOGLE_TRANSLATE_API_KEY env) = true →
          Route.calls (Route.translateWithGoogleAPI env text (lit "en") (fst lang)
                         Route.fresh).2
          = [Route.CallGoogle
               {| Route.q := if (len text >? 4500)%Z
                             then slice0 4500 text else text;
                  Route.source := Own (lit "en");
                  Route.target := Own target |}].
Proof.
  intros Hin.
  assert (Hs : lang ∈ supportedLanguages).
  { unfold availableLanguages in Hin.
    destruct (truthy region); [|by apply elem_of_nil in Hin].
    by apply list_elem_of_filter in Hin as [_ Hin]. }
  pose proof (proj1 (Forall_forall _ _) supported_codes_are_mapped lang Hs)
    as (Hen & _ & (target & Ht & Htne) & Hl & Hc & Hn).
  repeat (split; [done|]).
  exists target. split; [done|]. intros env text Hkey.
  assert (Hsrc : Route.GOOGLE_LANGUAGE_CODES !! lit "en" = Some (lit "en"))
    by (by vm_compute).
  unfold Route.translateWithGoogleAPI, Route.fresh, lookup_property.
  apply negb_true_iff in Hkey. rewrite Hkey, Hsrc, Ht.
  assert (Hf1 : falsy_property (Own (lit "en")) = false) by (by vm_compute).
  assert (Hf2 : falsy_property (Own target) = false).
  { unfold falsy_property. simpl. apply truthy_true in Htne. by rewrite Htne. }
  rewrite Hf1, Hf2.
  eff. unfold Route.send; simpl.
  destruct (Route.google env _) as [|status body]; simpl; [done|].
  destruct (negb (ok status)); [by destruct body|].
  destruct body as [| |data|]; simpl; try done.
  destruct (Route.error data); [done|].
  destruct (Route.translations data) as [[|e es]|]; try done.
  destruct (falsy _); [done|].
  by destruct (len text >? 4500)%Z.
Qed.

Lemma offered_languages_are_supported_witness :
  (lit "mni", lit "Manipuri") ∈ availableLanguages (lit "North East India")
  ∧ Route.in_LANGUAGE_NAMES (lit "mni") = true
  ∧ langName (lit "mni") = lit "Manipuri".
Proof.
  assert (Hin : (lit "mni", lit "Manipuri")
                ∈ availableLanguages (lit "North East India"))
    by (refine (bool_decide_unpack _ _); by vm_compute).
  split; [exact Hin|].
  destruct (offered_languages_are_supported (lit "North East India")
              (lit "mni", lit "Manipuri") Hin)
    as (_ & Hl & _ & Hn & _).
  split; [exact Hl | exact Hn].
Defined.

End NarrativeMore.
